(** * sharpy.linear.src.libss: state-space models, their interconnection and
    frequency response

    Shallow embedding of [libss.py] and proofs of the properties stated for it.

    Numbers.  Python floats and complex numbers are read as elements of one
    closed field [F] with a norm and a (partial) order: real quantities are
    its real elements, arithmetic is exact.  Rounding, NaN and Inf are not
    represented; a tolerance of the specification is met by an exact equation.

    Arrays.  A numpy array is a scalar, a one-dimensional or a two-dimensional
    array ([ndarray]); shapes are dynamic and every operation checks them as
    numpy does, returning a Python exception in [result] when numpy raises.
    Dense and sparse storage hold the same values and are not distinguished.

    Objects.  An instance of class [ss] is a record of its attributes,
    including the private attributes behind the properties [inputs],
    [outputs] and [states]; methods pass the instance explicitly. *)

Set Warnings "-notation-overridden,-ambiguous-paths,-deprecated,-notation-incompatible-prefix".
From HB Require Import structures.
From mathcomp Require Import boot order algebra field.
From Stdlib Require Import String.

Set Implicit Arguments.
Unset Strict Implicit.
Unset Printing Implicit Defensive.

Import Order.TTheory GRing.Theory Num.Theory.
Local Open Scope ring_scope.

(** ** Python exceptions *)

Inductive exn : Type :=
  | AssertionError (msg : string)
  | NameError (msg : string)
  | ValueError
  | IndexError
  | TypeError
  | AttributeError
  | ZeroDivisionError
  | UnboundLocalError
  | LinAlgError.

Inductive result (T : Type) : Type :=
  | Ok (x : T)
  | Err (e : exn).

Arguments Ok {T} x.
Arguments Err {T} e.

Definition bind {T U : Type} (m : result T) (k : T -> result U) : result U :=
  match m with
  | Ok x => k x
  | Err e => Err e
  end.

Notation "'do' x <- m ; k" := (bind m (fun x => k))
  (at level 200, x name, m at level 100, k at level 200, right associativity).
Notation "'do' ' p <- m ; k" := (bind m (fun x => match x with p => k end))
  (at level 200, p pattern, m at level 100, k at level 200, right associativity).

(** [assert cond, msg] *)
Definition assert (b : bool) (msg : string) : result unit :=
  if b then Ok tt else Err (AssertionError msg).

Definition is_ok {T : Type} (r : result T) : bool :=
  if r is Ok _ then true else false.

(** [for x in xs: body], threading the value [acc] that the body updates. *)
Fixpoint for_each {T S : Type} (xs : seq T) (body : T -> S -> result S) (acc : S)
  : result S :=
  match xs with
  | [::] => Ok acc
  | x :: xs' => do acc' <- body x acc; for_each xs' body acc'
  end.

(** [[f(x) for x in xs]] when [f] may raise. *)
Fixpoint map_result {T U : Type} (f : T -> result U) (xs : seq T) : result (seq U) :=
  match xs with
  | [::] => Ok [::]
  | x :: xs' => do y <- f x; do ys <- map_result f xs'; Ok (y :: ys)
  end.

(** ** State and exceptions *)

(** A computation on a mutable state [S]: the state survives an exception. *)
Definition st (S T : Type) : Type := S -> result T * S.

Definition ret {S T : Type} (x : T) : st S T := fun s => (Ok x, s).
Definition lift {S T : Type} (r : result T) : st S T := fun s => (r, s).
Definition raise {S T : Type} (e : exn) : st S T := fun s => (Err e, s).
Definition read {S T : Type} (f : S -> T) : st S T := fun s => (Ok (f s), s).
Definition write {S : Type} (f : S -> S) : st S unit := fun s => (Ok tt, f s).

Definition sbind {S T U : Type} (m : st S T) (k : T -> st S U) : st S U :=
  fun s => match m s with
           | (Ok x, s') => k x s'
           | (Err e, s') => (Err e, s')
           end.

Notation "'run' x <- m ; k" := (sbind m (fun x => k))
  (at level 200, x name, m at level 100, k at level 200, right associativity).
Notation "'run' ' p <- m ; k" := (sbind m (fun x => match x with p => k end))
  (at level 200, p pattern, m at level 100, k at level 200, right associativity).

(** [for x in xs: body] on the state. *)
Fixpoint sfor {S T : Type} (xs : seq T) (body : T -> st S unit) : st S unit :=
  match xs with
  | [::] => ret tt
  | x :: xs' => run _ <- body x; sfor xs' body
  end.

(** A computation on the first, or on the second, of two objects. *)
Definition on1 {S1 S2 T : Type} (m : st S1 T) : st (S1 * S2) T :=
  fun s => let: (r, s1) := m s.1 in (r, (s1, s.2)).
Definition on2 {S1 S2 T : Type} (m : st S2 T) : st (S1 * S2) T :=
  fun s => let: (r, s2) := m s.2 in (r, (s.1, s2)).

Section Model.

Variable F : numClosedFieldType.

(** [np.cos] and [np.sin] on floats: the field has no trigonometric
    functions of its own, so they are taken as given. *)
Variables np_cos np_sin : F -> F.

(** The float literals [1e-10], [1e-13], [1e-16] and [1e-32] *)
Definition tol (k : nat) : F := 10%:R ^- k.

(** ** numpy arrays of at most two dimensions *)

Inductive ndarray : Type :=
  | Scal (x : F)
  | Vec (n : nat) (v : 'rV[F]_n)
  | Mat (m n : nat) (M : 'M[F]_(m, n)).

(** [a.shape] *)
Definition shape (a : ndarray) : seq nat :=
  match a with
  | Scal _ => [::]
  | Vec n _ => [:: n]
  | Mat m n _ => [:: m; n]
  end.

Definition ndim (a : ndarray) : nat := size (shape a).

(** [a.shape[k]] for a literal [k >= 0] *)
Definition shape_ix (a : ndarray) (k : nat) : result nat :=
  if (k < ndim a)%N then Ok (nth 0%N (shape a) k) else Err IndexError.

(** Entry of a matrix at natural-number indices; [0] outside the matrix. *)
Definition mx_at (m n : nat) (M : 'M[F]_(m, n)) (i j : nat) : F :=
  match insub i, insub j with
  | Some i', Some j' => M i' j'
  | _, _ => 0
  end.

(** The array seen with two axes ([np.atleast_2d]): a scalar is 1 x 1, a
    vector of length [n] is 1 x n. *)
Definition rows2 (a : ndarray) : nat :=
  match a with
  | Scal _ => 1
  | Vec _ _ => 1
  | Mat m _ _ => m
  end.

Definition cols2 (a : ndarray) : nat :=
  match a with
  | Scal _ => 1
  | Vec n _ => n
  | Mat _ n _ => n
  end.

Definition item (a : ndarray) (i j : nat) : F :=
  match a with
  | Scal x => x
  | Vec _ v => mx_at v 0 j
  | Mat _ _ M => mx_at M i j
  end.

Definition atleast_2d (a : ndarray) : ndarray :=
  Mat (\matrix_(i < rows2 a, j < cols2 a) item a i j).

(** The array of rank [r] (0, 1 or 2) and extent [m] x [n] with entries [g]. *)
Definition build (r m n : nat) (g : nat -> nat -> F) : ndarray :=
  match r with
  | 0 => Scal (g 0%N 0%N)
  | 1 => Vec (\row_(j < n) g 0%N j)
  | _ => Mat (\matrix_(i < m, j < n) g i j)
  end.

Definition size_of (a : ndarray) : nat := (rows2 a * cols2 a)%N.

(** *** Broadcasting of element-wise operations *)

(** Two extents are compatible when they are equal or one of them is 1. *)
Definition bdim (d1 d2 : nat) : option nat :=
  if d1 == d2 then Some d1
  else if d1 == 1%N then Some d2
  else if d2 == 1%N then Some d1
  else None.

(** Index into an axis of extent [d] that is being broadcast. *)
Definition bidx (d i : nat) : nat := if d == 1%N then 0%N else i.

Definition bitem (a : ndarray) (i j : nat) : F :=
  item a (bidx (rows2 a) i) (bidx (cols2 a) j).

Definition broadcast (f : F -> F -> F) (X Y : ndarray) : result ndarray :=
  match bdim (rows2 X) (rows2 Y), bdim (cols2 X) (cols2 Y) with
  | Some m, Some n =>
      Ok (build (maxn (ndim X) (ndim Y)) m n
            (fun i j => f (bitem X i j) (bitem Y i j)))
  | _, _ => Err ValueError
  end.

(** [X + Y], [X - Y] *)
Definition np_add : ndarray -> ndarray -> result ndarray := broadcast +%R.
Definition np_sub : ndarray -> ndarray -> result ndarray :=
  broadcast (fun x y => x - y).

(** [c * X] for a Python number [c], [-X], [X / c], [np.abs(X)] *)
Definition map_array (f : F -> F) (a : ndarray) : ndarray :=
  match a with
  | Scal x => Scal (f x)
  | Vec _ v => Vec (map_mx f v)
  | Mat _ _ M => Mat (map_mx f M)
  end.

Definition np_scale (c : F) : ndarray -> ndarray := map_array (fun x => c * x).
Definition np_neg : ndarray -> ndarray := map_array -%R.
Definition np_abs : ndarray -> ndarray := map_array Num.norm.

(** [X += Y]: the sum must have the shape of [X]. *)
Definition np_iadd (X Y : ndarray) : result ndarray :=
  do Z <- np_add X Y;
  if shape Z == shape X then Ok Z else Err ValueError.

(** [np.max(X)]: the reduction has no identity, an empty array is refused. *)
Definition np_max (a : ndarray) : result F :=
  if size_of a == 0%N then Err ValueError
  else Ok (\big[Num.max/item a 0 0]_(i < rows2 a) \big[Num.max/item a 0 0]_(j < cols2 a)
             item a i j).

(** *** Constructors *)

(** [np.eye(n)], [np.zeros((m, n))] *)
Definition np_eye (n : nat) : ndarray := Mat (1%:M : 'M[F]_n).
Definition np_zeros (m n : nat) : ndarray := Mat (0 : 'M[F]_(m, n)).

(** [X.T] *)
Definition np_T (a : ndarray) : ndarray :=
  match a with
  | Mat _ _ M => Mat M^T
  | _ => a
  end.

(** *** Products *)

(** [np.dot(X, Y)] (also [X.dot(Y)]) *)
Definition np_dot (X Y : ndarray) : result ndarray :=
  match X, Y with
  | Scal x, _ => Ok (np_scale x Y)
  | _, Scal y => Ok (map_array (fun x => x * y) X)
  | Vec n u, Vec n' v =>
      if n == n' then Ok (Scal (\sum_(k < n) mx_at u 0 k * mx_at v 0 k))
      else Err ValueError
  | Mat m n A, Vec n' v =>
      if n == n' then Ok (Vec (\row_(i < m) \sum_(k < n) mx_at A i k * mx_at v 0 k))
      else Err ValueError
  | Vec n u, Mat n' p B =>
      if n == n' then Ok (Vec (\row_(j < p) \sum_(k < n) mx_at u 0 k * mx_at B k j))
      else Err ValueError
  | Mat m n A, Mat n' p B =>
      if n == n' then
        Ok (Mat (\matrix_(i < m, j < p) \sum_(k < n) mx_at A i k * mx_at B k j))
      else Err ValueError
  end.

(** [np.linalg.inv(X)]: at least two axes, square, and not singular. *)
Definition np_inv (X : ndarray) : result ndarray :=
  match X with
  | Mat m n M =>
      if m == n then
        let S : 'M[F]_m := \matrix_(i, j) mx_at M i j in
        if S \in unitmx then Ok (Mat (invmx S)) else Err LinAlgError
      else Err LinAlgError
  | _ => Err LinAlgError
  end.

(** *** Joining arrays *)

(** Two-dimensional arrays side by side (along the last axis). *)
Definition hcat (X Y : ndarray) : result ndarray :=
  match X, Y with
  | Mat m n A, Mat m' n' B =>
      if m == m' then
        Ok (Mat (\matrix_(i < m, j < (n + n')%N)
                   (if (j < n)%N then mx_at A i j else mx_at B i (j - n)%N)))
      else Err ValueError
  | _, _ => Err ValueError
  end.

(** Two-dimensional arrays one above the other (along the first axis). *)
Definition vcat (X Y : ndarray) : result ndarray :=
  match X, Y with
  | Mat m n A, Mat m' n' B =>
      if n == n' then
        Ok (Mat (\matrix_(i < (m + m')%N, j < n)
                   (if (i < m)%N then mx_at A i j else mx_at B (i - m)%N j)))
      else Err ValueError
  | _, _ => Err ValueError
  end.

(** One-dimensional arrays end to end. *)
Definition cat1 (X Y : ndarray) : result ndarray :=
  match X, Y with
  | Vec n u, Vec n' v =>
      Ok (Vec (\row_(j < (n + n')%N) (if (j < n)%N then mx_at u 0 j else mx_at v 0 (j - n)%N)))
  | _, _ => Err ValueError
  end.

(** [np.atleast_1d] *)
Definition atleast_1d (a : ndarray) : ndarray :=
  match a with
  | Scal x => Vec (\row_(j < 1) x)
  | _ => a
  end.

(** [np.block([X, Y])]: the blocks get the largest rank among them (at least
    1) and are joined along the last axis. *)
Definition block_row (X Y : ndarray) : result ndarray :=
  if (ndim X <= 1)%N && (ndim Y <= 1)%N then cat1 (atleast_1d X) (atleast_1d Y)
  else hcat (atleast_2d X) (atleast_2d Y).

(** [np.block([[X], [Y]])] *)
Definition block_col (X Y : ndarray) : result ndarray :=
  vcat (atleast_2d X) (atleast_2d Y).

(** [np.block([[X11, X12], [X21, X22]])] *)
Definition block_2x2 (X11 X12 X21 X22 : ndarray) : result ndarray :=
  do R1 <- hcat (atleast_2d X11) (atleast_2d X12);
  do R2 <- hcat (atleast_2d X21) (atleast_2d X22);
  vcat R1 R2.

(** [np.concatenate((X, Y), axis=k)]: the ranks must be equal. *)
Definition np_concatenate (X Y : ndarray) (axis : nat) : result ndarray :=
  match axis, ndim X, ndim Y with
  | 0, 1, 1 => cat1 X Y
  | 0, 2, 2 => vcat X Y
  | 1, 2, 2 => hcat X Y
  | _, _, _ => Err ValueError
  end.

(** *** Slices *)

(** [X[:N, :N]], [X[:N, :]], [X[:, :N]] for [N >= 0]; two indices need two axes. *)
Definition slice_rows_cols (X : ndarray) (N : nat) : result ndarray :=
  match X with
  | Mat m n M => Ok (Mat (\matrix_(i < minn N m, j < minn N n) mx_at M i j))
  | _ => Err IndexError
  end.

Definition slice_rows (X : ndarray) (N : nat) : result ndarray :=
  match X with
  | Mat m n M => Ok (Mat (\matrix_(i < minn N m, j < n) mx_at M i j))
  | _ => Err IndexError
  end.

Definition slice_cols (X : ndarray) (N : nat) : result ndarray :=
  match X with
  | Mat m n M => Ok (Mat (\matrix_(i < m, j < minn N n) mx_at M i j))
  | _ => Err IndexError
  end.

(** [Z[r0:r0+h, c0:c0+w] = X] when the slice lies inside [Z]: the value is
    broadcast to the shape of the slice. *)
Definition broadcasts_to (X : ndarray) (h w : nat) : bool :=
  ((rows2 X == h) || (rows2 X == 1%N)) && ((cols2 X == w) || (cols2 X == 1%N)).

Definition set_block (Z : ndarray) (r0 h c0 w : nat) (X : ndarray) : result ndarray :=
  match Z with
  | Mat m n M =>
      if broadcasts_to X h w then
        Ok (Mat (\matrix_(i < m, j < n)
                   (if (r0 <= i < r0 + h)%N && (c0 <= j < c0 + w)%N
                    then bitem X (i - r0)%N (j - c0)%N else mx_at M i j)))
      else Err ValueError
  | _ => Err IndexError
  end.

(** [X[:, j] = X[:, j] * c] and [X[i, :] = X[i, :] * c], in place: two
    indices need two axes, and the index must exist. *)
Definition scale_col (X : ndarray) (j0 : nat) (c : F) : result ndarray :=
  match X with
  | Mat m n M =>
      if (j0 < n)%N then
        Ok (Mat (\matrix_(i < m, j < n) (if j == j0 :> nat then M i j * c else M i j)))
      else Err IndexError
  | _ => Err IndexError
  end.

Definition scale_row (X : ndarray) (i0 : nat) (c : F) : result ndarray :=
  match X with
  | Mat m n M =>
      if (i0 < m)%N then
        Ok (Mat (\matrix_(i < m, j < n) (if i == i0 :> nat then M i j * c else M i j)))
      else Err IndexError
  | _ => Err IndexError
  end.

(** [Z[i0, j] = c] for a natural [i0] and a Python integer [j], which counts
    from the end when negative. *)
Definition np_index (n : nat) (j : int) : result nat :=
  match j with
  | Posz k => if (k < n)%N then Ok k else Err IndexError
  | Negz k => if (k < n)%N then Ok (n - k.+1)%N else Err IndexError
  end.

Definition set_item (Z : ndarray) (i0 : nat) (j : int) (c : F) : result ndarray :=
  match Z with
  | Mat m n M =>
      if (i0 < m)%N then
        do j0 <- np_index n j;
        Ok (Mat (\matrix_(i < m, j < n)
                   (if (i == i0 :> nat) && (j == j0 :> nat) then c else M i j)))
      else Err IndexError
  | _ => Err IndexError
  end.

(** [np.sqrt]: the principal square root (with non-negative real part); on
    a non-negative real it is the real square root.  The NaN that numpy gives
    for a negative float is not represented. *)
Definition np_sqrt (z : F) : F := if 0 <= 'Im z then sqrtC z else - sqrtC z.

(** [np.trapz(y)] of a one-dimensional array with unit spacing. *)
Fixpoint np_trapz (y : seq F) : F :=
  match y with
  | y0 :: ((y1 :: _) as y') => (y0 + y1) / 2%:R + np_trapz y'
  | _ => 0
  end.

(** [np.linalg.norm(g, np.inf)] of a one-dimensional array: the largest
    modulus; an empty array is refused. *)
Definition np_norm_inf (g : seq F) : result F :=
  match g with
  | [::] => Err ValueError
  | g0 :: g' => Ok (foldl Num.max `|g0| [seq `|x| | x <- g'])
  end.

(** ** libsparse *)

(** Modelled from the spec: [libsp.SupportedTypes] of the absent module
    [libsparse], the closed set of supported representations (dense and
    sparse matrices); a numpy scalar is neither. *)
Definition supported_type (a : ndarray) : bool := ndim a != 0%N.

(** Modelled from the spec: [libsp.dot] of the absent module [libsparse],
    the generalized product, which handles vector-shaped operands. *)
Definition libsp_dot (X Y : ndarray) : result ndarray := np_dot X Y.

(** Modelled from the spec: [libsp.solve] of the absent module [libsparse]:
    [solve(X, Y)] solves [X.Z = Y]; a singular [X] is a numerical failure. *)
Definition libsp_solve (X Y : ndarray) : result ndarray :=
  match Y with
  | Scal _ => Err ValueError
  | _ => do Xi <- np_inv X; np_dot Xi Y
  end.

(** Modelled from the spec: [libsp.eye_as] of the absent module [libsparse],
    the identity matching the dimension of its argument. *)
Definition libsp_eye_as (X : ndarray) : result ndarray :=
  do n <- shape_ix X 0; Ok (np_eye n).

(** Modelled from the spec: [libsp.dense] of the absent module [libsparse],
    the same matrix in dense storage. *)
Definition libsp_dense (X : ndarray) : ndarray := X.

(** ** class ss *)

(** The attributes of an instance.  [_inputs], [_outputs] and [_states] are
    the private attributes behind the properties, unset before they are
    first assigned. *)
Record ss : Type := Ss {
  A : ndarray;
  B : ndarray;
  C : ndarray;
  D : ndarray;
  dt : option F;
  _inputs : option nat;
  _outputs : option nat;
  _states : option nat
}.

Definition set_A (X : ndarray) (s : ss) : ss :=
  Ss X (B s) (C s) (D s) (dt s) (_inputs s) (_outputs s) (_states s).
Definition set_B (X : ndarray) (s : ss) : ss :=
  Ss (A s) X (C s) (D s) (dt s) (_inputs s) (_outputs s) (_states s).
Definition set_C (X : ndarray) (s : ss) : ss :=
  Ss (A s) (B s) X (D s) (dt s) (_inputs s) (_outputs s) (_states s).
Definition set_D (X : ndarray) (s : ss) : ss :=
  Ss (A s) (B s) (C s) X (dt s) (_inputs s) (_outputs s) (_states s).

Definition method (T : Type) : Type := st ss T.

(** Reading an attribute that may not have been assigned yet. *)
Definition getattr (x : option nat) : result nat :=
  if x is Some k then Ok k else Err AttributeError.

(** The setters of the three properties. *)
Definition inputs_setter (value : nat) : method unit :=
  write (fun s => Ss (A s) (B s) (C s) (D s) (dt s) (Some value) (_outputs s) (_states s)).
Definition outputs_setter (value : nat) : method unit :=
  write (fun s => Ss (A s) (B s) (C s) (D s) (dt s) (_inputs s) (Some value) (_states s)).
Definition states_setter (value : nat) : method unit :=
  write (fun s => Ss (A s) (B s) (C s) (D s) (dt s) (_inputs s) (_outputs s) (Some value)).

(** The getters: each assigns the private attribute from the current
    matrices, then returns it. *)
Definition inputs : method nat :=
  run b <- read B;
  run _ <- (if ndim b == 1%N then inputs_setter 1
            else run m <- lift (shape_ix b 1); inputs_setter m);
  run v <- read _inputs;
  lift (getattr v).

Definition outputs : method nat :=
  run c <- read C;
  run p <- lift (shape_ix c 0);
  run _ <- outputs_setter p;
  run v <- read _outputs;
  lift (getattr v).

Definition states : method nat :=
  run a <- read A;
  run n <- lift (shape_ix a 0);
  run _ <- states_setter n;
  run v <- read _states;
  lift (getattr v).

Definition check_types : method unit :=
  run a <- read A;
  run _ <- lift (assert (supported_type a) "Type of A matrix not supported");
  run b <- read B;
  run _ <- lift (assert (supported_type b) "Type of B matrix not supported");
  run c <- read C;
  run _ <- lift (assert (supported_type c) "Type of C matrix not supported");
  run d <- read D;
  lift (assert (supported_type d) "Type of D matrix not supported").

(** The tuple [(x, y) = a.shape] *)
Definition unpack2 (sh : seq nat) : result (nat * nat) :=
  if sh is [:: x; y] then Ok (x, y) else Err ValueError.

(** [ss.__init__]: the body, run on the instance whose matrices and time
    step have just been stored. *)
Definition init_body : method unit :=
  run _ <- check_types;
  run b <- read B;
  run _ <- (if ndim b == 1%N then
              run _ <- inputs_setter 1;
              run n <- lift (shape_ix b 0);
              states_setter n
            else
              run nm <- lift (unpack2 (shape b));
              run _ <- states_setter nm.1;
              inputs_setter nm.2);
  run c <- read C;
  run p <- lift (shape_ix c 0);
  run _ <- outputs_setter p;
  run a <- read A;
  run n1 <- states;
  run n2 <- states;
  run _ <- lift (assert (shape a == [:: n1; n2]) "A and B rows not matching");
  run nc <- lift (shape_ix c 1);
  run n <- states;
  run _ <- lift (assert (nc == n) "A and C columns not matching");
  run d <- read D;
  run pd <- lift (shape_ix d 0);
  run p' <- outputs;
  run _ <- lift (assert (pd == p') "C and D rows not matching");
  match shape_ix d 1 with
  | Ok md =>
      run m <- inputs;
      lift (assert (md == m) "B and D columns not matching")
  | Err IndexError =>
      run m <- inputs;
      lift (assert (m == 1%N) "D shape does not match number of inputs")
  | Err e => raise e
  end.

(** [ss(A, B, C, D, dt)]: the new instance, when [__init__] returns. *)
Definition ss_new (A0 B0 C0 D0 : ndarray) (dt0 : option F) : result ss :=
  let: (r, self) := init_body (Ss A0 B0 C0 D0 dt0 None None None) in
  do _ <- r; Ok self.

Definition get_mats : method (ndarray * ndarray * ndarray * ndarray) :=
  read (fun s => (A s, B s, C s, D s)).

(** *** Functions of the module that the methods wrap *)

(** [disc2cont(sys)]: the bilinear (Tustin) transformation. *)
Definition disc2cont (sys : ss) : result ss :=
  do _ <- assert (dt sys != None) "System to transform is not a discrete-time system.";
  do n <- shape_ix (A sys) 0;
  do pm <- unpack2 (shape (D sys));
  let eye := np_eye n in
  do a_eye <- np_add (A sys) eye;
  do eye_a_inv <- np_inv a_eye;
  do omega_0 <- (match dt sys with
                 | Some h => if h == 0 then Err ZeroDivisionError else Ok (2%:R / h)
                 | None => Err TypeError
                 end);
  do a_m <- np_sub (A sys) eye;
  do a0 <- np_dot a_m eye_a_inv;
  let a := np_scale omega_0 a0 in
  do b0 <- np_dot eye_a_inv (B sys);
  let b := np_scale (np_sqrt (2%:R * omega_0)) b0 in
  do c0 <- np_dot (C sys) eye_a_inv;
  let c := np_scale (np_sqrt (2%:R * omega_0)) c0 in
  do ib <- np_dot eye_a_inv (B sys);
  do cib <- np_dot (C sys) ib;
  do d <- np_sub (D sys) cib;
  ss_new a b c d None.

(** A scaling factor: one float for every channel, or a list or array with a
    factor per channel. *)
Inductive scal : Type :=
  | Float (x : F)
  | Listed (xs : seq F).

(** [len(x) == N] is asserted for a list, a float becomes [N * [x]]. *)
Definition scal_list (x : scal) (N : nat) (msg : string) : result (seq F) :=
  match x with
  | Listed xs => do _ <- assert (size xs == N) msg; Ok xs
  | Float c => Ok (nseq N c)
  end.

(** [scale_SS(SSin, input_scal, output_scal, state_scal, byref)], on the
    instance [SSin]; it returns the scaled model.  With [byref] the instance
    itself is scaled, otherwise a deep copy of it. *)
Definition scale_loops (input_scal output_scal state_scal : seq F)
    (Nin Nout Nstates : nat) : method unit :=
  run _ <- sfor (iota 0 Nin) (fun ii =>
    run b <- read B;
    run b' <- lift (scale_col b ii (nth 0 input_scal ii));
    run _ <- write (set_B b');
    run d <- read D;
    run d' <- lift (scale_col d ii (nth 0 input_scal ii));
    write (set_D d'));
  run _ <- sfor (iota 0 Nout) (fun ii =>
    run c <- read C;
    run c' <- lift (scale_row c ii (nth 0 output_scal ii)^-1);
    run _ <- write (set_C c');
    run d <- read D;
    run d' <- lift (scale_row d ii (nth 0 output_scal ii)^-1);
    write (set_D d'));
  sfor (iota 0 Nstates) (fun ii =>
    run b <- read B;
    run b' <- lift (scale_row b ii (nth 0 state_scal ii)^-1);
    run _ <- write (set_B b');
    run c <- read C;
    run c' <- lift (scale_col c ii (nth 0 state_scal ii));
    write (set_C c')).

Definition scale_SS (input_scal output_scal state_scal : scal) (byref : bool)
  : method ss :=
  run Nin <- inputs;
  run Nout <- outputs;
  run a <- read A;
  run Nstates <- lift (shape_ix a 0);
  run isc <- lift (scal_list input_scal Nin
                     "Length of input_scal not matching number of state-space inputs!");
  run osc <- lift (scal_list output_scal Nout
                     "Length of output_scal not matching number of state-space outputs!");
  run ssc <- lift (scal_list state_scal Nstates
                     "Length of state_scal not matching number of state-space states!");
  if byref then
    run _ <- scale_loops isc osc ssc Nin Nout Nstates;
    read id
  else
    fun SSin => let: (r, SS) := scale_loops isc osc ssc Nin Nout Nstates SSin in
                (do _ <- r; Ok SS, SSin).

(** *** Methods of the class *)

(** [ss.addGain(K, where)] *)
Definition ss_addGain (K : ndarray) (where_ : string) : method unit :=
  run _ <- lift (assert (String.eqb where_ "in" || String.eqb where_ "out")
                   "Specify whether gains are added to input or output");
  run _ <- (if String.eqb where_ "in" then
              run b <- read B;
              run b' <- lift (libsp_dot b K);
              run _ <- write (set_B b');
              run d <- read D;
              run d' <- lift (libsp_dot d K);
              write (set_D d')
            else ret tt);
  if String.eqb where_ "out" then
    run c <- read C;
    run c' <- lift (libsp_dot K c);
    run _ <- write (set_C c');
    run d <- read D;
    run d' <- lift (libsp_dot K d);
    write (set_D d')
  else ret tt.

(** [ss.scale(input_scal, output_scal, state_scal)] *)
Definition ss_scale (input_scal output_scal state_scal : scal) : method unit :=
  run _ <- scale_SS input_scal output_scal state_scal true;
  ret tt.

(** [ss.project(WT, V)] *)
Definition ss_project (WT V : ndarray) : method unit :=
  run a <- read A;
  run av <- lift (libsp_dot a V);
  run a' <- lift (libsp_dot WT av);
  run _ <- write (set_A a');
  run b <- read B;
  run b' <- lift (libsp_dot WT b);
  run _ <- write (set_B b');
  run c <- read C;
  run c' <- lift (libsp_dot c V);
  run _ <- write (set_C c');
  run k <- lift (shape_ix V 1);
  states_setter k.

(** [ss.truncate(N)] *)
Definition ss_truncate (N : int) : method unit :=
  run ok <- (if 0 < N then run n <- states; ret (N <= n%:Z) else ret false);
  run _ <- lift (assert ok "N must be in [1,self.states]");
  run a <- read A;
  run a' <- lift (slice_rows_cols a `|N|%N);
  run _ <- write (set_A a');
  run b <- read B;
  run b' <- lift (slice_rows b `|N|%N);
  run _ <- write (set_B b');
  run c <- read C;
  run c' <- lift (slice_cols c `|N|%N);
  write (set_C c').

(** Truth value of [self.dt] *)
Definition truthy (x : option F) : bool :=
  if x is Some h then h != 0 else false.

(** [ss.disc2cont()]: the converted system is bound to the local name
    [self] only; the method returns [None]. *)
Definition ss_disc2cont : method unit :=
  run h <- read dt;
  if truthy h then
    run self <- read id;
    run _ <- lift (disc2cont self);
    ret tt
  else ret tt.

(** [remove_inout_channels(sys, retain_channels, where)], on the instance
    [sys]. *)
Definition remove_inout_channels (retain_channels : seq int) (where_ : string)
  : method unit :=
  let retain_m := size retain_channels in
  run m <- (if String.eqb where_ "in" then inputs
            else if String.eqb where_ "out" then outputs
            else raise (NameError "Argument ``where`` can only be ``in`` or ``out``."));
  run gain_matrix <-
    lift (for_each (zip (iota 0 retain_m) retain_channels)
            (fun ic g => set_item g ic.1 ic.2 1) (np_zeros retain_m m));
  if String.eqb where_ "in" then ss_addGain (np_T gain_matrix) "in"
  else if String.eqb where_ "out" then ss_addGain gain_matrix "out"
  else raise (NameError "Argument ``where`` can only be ``in`` or ``out``.").

(** [ss.remove_inout_channels(retain_channels, where)] *)
Definition ss_remove_inout_channels (retain_channels : seq int) (where_ : string)
  : method unit :=
  remove_inout_channels retain_channels where_.

(** ** scipy.signal state-space systems *)

(** The attributes of a [scipy.signal.StateSpace] instance; its [inputs]
    and [outputs] are plain attributes, [B.shape[-1]] and [C.shape[0]]. *)
Record statespace : Type := StateSpace {
  lti_A : ndarray;
  lti_B : ndarray;
  lti_C : ndarray;
  lti_D : ndarray;
  lti_dt : option F
}.

Definition lti_inputs (s : statespace) : nat := cols2 (lti_B s).
Definition lti_outputs (s : statespace) : nat := rows2 (lti_C s).

(** The Python values that the functions of the module receive and return:
    an array, an instance of [ss], or a discrete-time or continuous-time scipy
    state-space system. *)
Inductive pyobj : Type :=
  | PyArr (a : ndarray)
  | PySs (s : ss)
  | PyDlti (s : statespace)
  | PyLti (s : statespace).

(** [scipy.signal.abcd_normalize]: the four matrices with two axes each and
    consistent shapes; an empty matrix stands for zeros of the right shape. *)
Definition _restore (M : ndarray) (m n : nat) : result ndarray :=
  if shape M == [:: 0%N; 0%N] then Ok (np_zeros m n)
  else if shape M != [:: m; n] then Err ValueError
  else Ok M.

Definition abcd_normalize (A0 B0 C0 D0 : ndarray)
  : result (ndarray * ndarray * ndarray * ndarray) :=
  let A2 := atleast_2d A0 in
  let B2 := atleast_2d B0 in
  let C2 := atleast_2d C0 in
  let D2 := atleast_2d D0 in
  let p := rows2 A2 in
  let q := cols2 B2 in
  let r := rows2 C2 in
  do A' <- _restore A2 p p;
  do B' <- _restore B2 p q;
  do C' <- _restore C2 r p;
  do D' <- _restore D2 r q;
  Ok (A', B', C', D').

(** [scipy.signal.dlti(A, B, C, D, dt=dt)] *)
Definition scsig_dlti (A0 B0 C0 D0 : ndarray) (dt0 : option F) : result pyobj :=
  do '(A', B', C', D') <- abcd_normalize A0 B0 C0 D0;
  Ok (PyDlti (StateSpace A' B' C' D' dt0)).

(** [scipy.signal.StateSpace(A, B, C, D, dt=dt)]: discrete-time when a [dt]
    is given, continuous-time otherwise. *)
Definition scsig_StateSpace (A0 B0 C0 D0 : ndarray) (dt0 : option F) : result pyobj :=
  do '(A', B', C', D') <- abcd_normalize A0 B0 C0 D0;
  Ok (if dt0 is Some _ then PyDlti (StateSpace A' B' C' D' dt0)
      else PyLti (StateSpace A' B' C' D' dt0)).

(** ** Methods for state-space manipulation *)

(** [couple(ss01, ss02, K12, K21, out_sparse)], on the two instances. *)
Definition couple (K12 K21 : ndarray) (out_sparse : bool) : st (ss * ss) ss :=
  run dt1 <- on1 (read dt);
  run dt2 <- on2 (read dt);
  run _ <- lift (match dt1, dt2 with
                 | Some h1, Some h2 =>
                     assert (`|h1 - h2| < tol 10 * h1) "Time-steps not matching!"
                 | _, _ => Err TypeError
                 end);
  run m1 <- on1 inputs;
  run p2 <- on2 outputs;
  run _ <- lift (assert (shape K12 == [:: m1; p2])
                   "Gain K12 shape not matching with systems number of inputs/outputs");
  run m2 <- on2 inputs;
  run p1 <- on1 outputs;
  run _ <- lift (assert (shape K21 == [:: m2; p1])
                   "Gain K21 shape not matching with systems number of inputs/outputs");
  run '(A1, B1, C1, D1) <- on1 get_mats;
  run '(A2, B2, C2, D2) <- on2 get_mats;
  lift (
    (* extract size *)
    do _ <- unpack2 (shape B1);
    do _ <- shape_ix C1 0;
    do _ <- unpack2 (shape B2);
    do _ <- shape_ix C2 0;
    (* terms to invert *)
    do maxD1 <- np_max (np_abs D1);
    do maxD2 <- np_max (np_abs D2);
    let _ := maxD1 < tol 32 in
    let _ := maxD2 < tol 32 in
    (* compute self-influence gains *)
    do D2K21 <- libsp_dot D2 K21;
    do K11 <- libsp_dot K12 D2K21;
    do D1K12 <- libsp_dot D1 K12;
    do K22 <- libsp_dot K21 D1K12;
    (* left hand side terms *)
    do L1 <- libsp_dot (np_neg K11) D1;
    do L2 <- libsp_dot (np_neg K22) D2;
    do eye1 <- libsp_eye_as L1;
    do L1 <- np_iadd L1 eye1;
    do eye2 <- libsp_eye_as L2;
    do L2 <- np_iadd L2 eye2;
    (* coupling terms *)
    do cpl_12 <- libsp_solve L1 K12;
    do cpl_21 <- libsp_solve L2 K21;
    do D2K21' <- libsp_dot D2 K21;
    do cpl_11 <- libsp_dot cpl_12 D2K21';
    do D1K12' <- libsp_dot D1 K12;
    do cpl_22 <- libsp_dot cpl_21 D1K12';
    (* Build coupled system *)
    if out_sparse then
      Err (NameError "out_sparse=True not supported yet (verify if worth it first).")
    else
      let term (X Kc Y : ndarray) : result ndarray :=
        do XK <- libsp_dot X Kc; libsp_dot XK Y in
      do A11 <- (do t <- term B1 cpl_11 C1; np_add A1 t);
      do A12 <- term B1 cpl_12 C2;
      do A21 <- term B2 cpl_21 C1;
      do A22 <- (do t <- term B2 cpl_22 C2; np_add A2 t);
      do A <- block_2x2 (libsp_dense A11) (libsp_dense A12)
                        (libsp_dense A21) (libsp_dense A22);
      do C11 <- (do t <- term D1 cpl_11 C1; np_add C1 t);
      do C12 <- term D1 cpl_12 C2;
      do C21 <- term D2 cpl_21 C1;
      do C22 <- (do t <- term D2 cpl_22 C2; np_add C2 t);
      do C <- block_2x2 (libsp_dense C11) (libsp_dense C12)
                        (libsp_dense C21) (libsp_dense C22);
      do B11 <- (do t <- term B1 cpl_11 D1; np_add B1 t);
      do B12 <- term B1 cpl_12 D2;
      do B21 <- term B2 cpl_21 D1;
      do B22 <- (do t <- term B2 cpl_22 D2; np_add B2 t);
      do B <- block_2x2 (libsp_dense B11) (libsp_dense B12)
                        (libsp_dense B21) (libsp_dense B22);
      do D11 <- (do t <- term D1 cpl_11 D1; np_add D1 t);
      do D12 <- term D1 cpl_12 D2;
      do D21 <- term D2 cpl_21 D1;
      do D22 <- (do t <- term D2 cpl_22 D2; np_add D2 t);
      do D <- block_2x2 (libsp_dense D11) (libsp_dense D12)
                        (libsp_dense D21) (libsp_dense D22);
      ss_new A B C D dt1).

(** The value stored by [Yfreq[:, :, ii] = Y]: [Y] broadcast to the
    [Ny] x [Nu] slice. *)
Definition broadcast_to (Y : ndarray) (Ny Nu : nat) : result ndarray :=
  if broadcasts_to Y Ny Nu then Ok (Mat (\matrix_(i < Ny, j < Nu) bitem Y i j))
  else Err ValueError.

(** [freqresp(SS, wv, dlti)]: the response [Yfreq[:, :, ii]] for each
    frequency [wv[ii]], in order. *)
Definition freqresp (SS : pyobj) (wv : seq F) (dlti : bool) : result (seq ndarray) :=
  do SS <- (if SS is PySs s then Ok s
            else Err (AssertionError
                   "Type of state-space model not supported. Use libss.ss instead!"));
  do _ <- (check_types SS).1;
  do zv <- (if dlti then
              match dt SS with
              | Some Ts => Ok [seq np_cos (Ts * w) + 'i * np_sin (Ts * w) | w <- wv]
              | None => Err TypeError
              end
            else Ok [seq 'i * w | w <- wv]);
  do Nx <- shape_ix (A SS) 0;
  do Ny <- shape_ix (D SS) 0;
  do Nu <- (match shape_ix (B SS) 1 with
            | Ok k => Ok k
            | Err IndexError => Ok 1%N
            | Err e => Err e
            end);
  do Eye <- libsp_eye_as (A SS);
  map_result (fun z =>
    do zI_A <- np_sub (np_scale z Eye) (A SS);
    do sol_cplx <- libsp_solve zI_A (B SS);
    do CX <- libsp_dot (C SS) sol_cplx;
    do Y <- np_add CX (D SS);
    broadcast_to Y Ny Nu) zv.

(** [ss.freqresp(wv)] *)
Definition ss_freqresp (self : ss) (wv : seq F) : result (seq ndarray) :=
  freqresp (PySs self) wv (dt self != None).

(** [series(SS01, SS02)], on the two instances (both of class [ss], so that
    the test on their types passes). *)
Definition series : st (ss * ss) ss :=
  run dt1 <- on1 (read dt);
  run dt2 <- on2 (read dt);
  run _ <- (if dt1 != dt2
            then raise (NameError "DLTI systems do not have the same time-step!")
            else ret tt);
  run Nst01 <- on1 states;
  run Nst02 <- on2 states;
  let Nst := (Nst01 + Nst02)%N in
  run Nin <- on1 inputs;
  run Nout <- on2 outputs;
  run '(A1, B1, C1, D1) <- on1 get_mats;
  run '(A2, B2, C2, D2) <- on2 get_mats;
  lift (
    let A := np_zeros Nst Nst in
    do A <- set_block A 0 Nst01 0 Nst01 (libsp_dense A1);
    do A <- set_block A Nst01 Nst02 Nst01 Nst02 (libsp_dense A2);
    do B2C1 <- libsp_dot B2 C1;
    do A <- set_block A Nst01 Nst02 0 Nst01 (libsp_dense B2C1);
    do B2D1 <- libsp_dot B2 D1;
    do B <- np_concatenate (libsp_dense B1) (libsp_dense B2D1) 0;
    do D2C1 <- libsp_dot D2 C1;
    do C <- np_concatenate (libsp_dense D2C1) (libsp_dense C2) 1;
    do D2D1 <- libsp_dot D2 D1;
    let D := libsp_dense D2D1 in
    ss_new A B C D dt1).

(** [parallel(SS01, SS02)], on the two instances (both of class [ss]). *)
Definition parallel : st (ss * ss) pyobj :=
  run dt1 <- on1 (read dt);
  run dt2 <- on2 (read dt);
  run _ <- (if dt1 != dt2
            then raise (NameError "DLTI systems do not have the same time-step!")
            else ret tt);
  run Nout <- on2 outputs;
  run Nout1 <- on1 outputs;
  run _ <- (if Nout != Nout1
            then raise (NameError "DLTI systems need to have the same number of output!")
            else ret tt);
  run Nst01 <- on1 states;
  run Nst02 <- on2 states;
  let Nst := (Nst01 + Nst02)%N in
  run Nin01 <- on1 inputs;
  run Nin02 <- on2 inputs;
  let Nin := (Nin01 + Nin02)%N in
  run '(A1, B1, C1, D1) <- on1 get_mats;
  run '(A2, B2, C2, D2) <- on2 get_mats;
  lift (
    let A := np_zeros Nst Nst in
    do A <- set_block A 0 Nst01 0 Nst01 A1;
    do A <- set_block A Nst01 Nst02 Nst01 Nst02 A2;
    let B := np_zeros Nst Nin in
    do B <- set_block B 0 Nst01 0 Nin01 B1;
    do B <- set_block B Nst01 Nst02 Nin01 Nin02 B2;
    do C <- block_row C1 C2;
    do D <- block_row D1 D2;
    scsig_dlti A B C D dt1).

(** [isinstance(x, np.ndarray)] and [isinstance(x, type_dlti)] with
    [type_dlti = scsig.ltisys.StateSpaceDiscrete] *)
Definition is_ndarray (x : pyobj) : bool :=
  if x is PyArr a then supported_type a else false.

Definition is_type_dlti (x : pyobj) : bool :=
  if x is PyDlti _ then true else false.

(** Attribute [x.dt]: an array has none. *)
Definition getattr_dt (x : pyobj) : result (option F) :=
  match x with
  | PyArr _ => Err AttributeError
  | PySs s => Ok (dt s)
  | PyDlti s => Ok (lti_dt s)
  | PyLti s => Ok (lti_dt s)
  end.

(** [join2(SS1, SS2)] *)
Definition join2 (SS1 SS2 : pyobj) : result pyobj :=
  match SS1, SS2 with
  | PyArr K1, PyArr K2 =>
      if supported_type K1 && supported_type K2 then
        do Nin01 <- shape_ix K1 1;
        do Nin02 <- shape_ix K2 1;
        do Nout01 <- shape_ix K1 0;
        do Nout02 <- shape_ix K2 0;
        do SStot <- block_2x2 K1 (np_zeros Nout01 Nin02) (np_zeros Nout02 Nin01) K2;
        Ok (PyArr SStot)
      else Err (NameError "Input types not recognised in any implemented option!")
  | PyArr K1, PyDlti S2 =>
      if supported_type K1 then
        do Nin01 <- shape_ix K1 1;
        do Nout01 <- shape_ix K1 0;
        let Nin02 := lti_inputs S2 in
        let Nout02 := lti_outputs S2 in
        do Nx02 <- shape_ix (lti_A S2) 0;
        let A := lti_A S2 in
        do B <- block_row (np_zeros Nx02 Nin01) (lti_B S2);
        do C <- block_col (np_zeros Nout01 Nx02) (lti_C S2);
        do D <- block_2x2 K1 (np_zeros Nout01 Nin02) (np_zeros Nout02 Nin01) (lti_D S2);
        scsig_StateSpace A B C D (lti_dt S2)
      else Err (NameError "Input types not recognised in any implemented option!")
  | PyDlti S1, PyArr K2 =>
      if supported_type K2 then
        let Nin01 := lti_inputs S1 in
        let Nout01 := lti_outputs S1 in
        do Nin02 <- shape_ix K2 1;
        do Nout02 <- shape_ix K2 0;
        do Nx01 <- shape_ix (lti_A S1) 0;
        let A := lti_A S1 in
        do B <- block_row (lti_B S1) (np_zeros Nx01 Nin02);
        do C <- block_col (lti_C S1) (np_zeros Nout02 Nx01);
        do D <- block_2x2 (lti_D S1) (np_zeros Nout01 Nin02) (np_zeros Nout02 Nin01) K2;
        scsig_StateSpace A B C D (lti_dt S1)
      else Err (NameError "Input types not recognised in any implemented option!")
  | PyDlti S1, PyDlti S2 =>
      do _ <- assert (lti_dt S1 == lti_dt S2)
                "State-space models must have the same time-step";
      let Nin01 := lti_inputs S1 in
      let Nout01 := lti_outputs S1 in
      let Nin02 := lti_inputs S2 in
      let Nout02 := lti_outputs S2 in
      do Nx01 <- shape_ix (lti_A S1) 0;
      do Nx02 <- shape_ix (lti_A S2) 0;
      do A <- block_2x2 (lti_A S1) (np_zeros Nx01 Nx02) (np_zeros Nx02 Nx01) (lti_A S2);
      do B <- block_2x2 (lti_B S1) (np_zeros Nx01 Nin02) (np_zeros Nx02 Nin01) (lti_B S2);
      do C <- block_2x2 (lti_C S1) (np_zeros Nout01 Nx02) (np_zeros Nout02 Nx01) (lti_C S2);
      do D <- block_2x2 (lti_D S1) (np_zeros Nout01 Nin02) (np_zeros Nout02 Nin01) (lti_D S2);
      scsig_StateSpace A B C D (lti_dt S1)
  | _, _ => Err (NameError "Input types not recognised in any implemented option!")
  end.

(** [sum_ss(SS1, SS2, negative)] *)
Definition sum_ss (SS1 SS2 : pyobj) (negative : bool) : result pyobj :=
  if is_ndarray SS1 && is_ndarray SS2 then
    match SS1, SS2 with
    | PyArr K1, PyArr K2 => do SStot <- np_add K1 K2; Ok (PyArr SStot)
    | _, _ => Err TypeError
    end
  else if is_ndarray SS1 && is_type_dlti SS2 then
    match SS1, SS2 with
    | PyArr Kmat, PyDlti S2 =>
        let A := lti_A S2 in
        let B := lti_B S2 in
        let C := lti_C S2 in
        do D <- np_add (lti_D S2) Kmat;
        do dt2 <- getattr_dt SS2;
        scsig_StateSpace A B C D dt2
    | _, _ => Err TypeError
    end
  else if is_type_dlti SS1 && is_ndarray SS2 then
    match SS1, SS2 with
    | PyDlti S1, PyArr Kmat =>
        let A := lti_A S1 in
        let B := lti_B S1 in
        let C := lti_C S1 in
        do D <- np_add (lti_D S1) Kmat;
        do dt2 <- getattr_dt SS2;
        scsig_StateSpace A B C D dt2
    | _, _ => Err TypeError
    end
  else if is_type_dlti SS1 && is_type_dlti SS2 then
    match SS1, SS2 with
    | PyDlti S1, PyDlti S2 =>
        do _ <- (match lti_dt S1, lti_dt S2 with
                 | Some h1, Some h2 =>
                     if h2 == 0 then Err ZeroDivisionError
                     else assert (`|1 - h1 / h2| < tol 13)
                            "State-space models must have the same time-step"
                 | _, _ => Err TypeError
                 end);
        do Nx01 <- shape_ix (lti_A S1) 0;
        do Nx02 <- shape_ix (lti_A S2) 0;
        do A <- block_2x2 (lti_A S1) (np_zeros Nx01 Nx02) (np_zeros Nx02 Nx01) (lti_A S2);
        do B <- block_col (lti_B S1) (lti_B S2);
        do C <- block_row (lti_C S1) (lti_C S2);
        do D <- np_add (lti_D S1) (lti_D S2);
        scsig_StateSpace A B C D (lti_dt S1)
    | _, _ => Err TypeError
    end
  else Err (NameError "Input types not recognised in any implemented option!").

(** The test [abs(Gnorm.imag / Gnorm.real) > 1e-16] on floats: a zero real
    part gives an infinite quotient, above the bound, unless the imaginary part
    is zero as well (the quotient is then NaN and the comparison false). *)
Definition not_real (Gnorm : F) : bool :=
  if 'Re Gnorm == 0 then 'Im Gnorm != 0
  else tol 16 < `|'Im Gnorm / 'Re Gnorm|.

(** [Hnorm_from_freq_resp(gv, method)].  The method is compared with the
    literals ['H2'] and ['Hinf'] by identity; the strings are read as interned,
    so that identity is equality. *)
Definition Hnorm_from_freq_resp (gv : seq F) (method_ : string) : result F :=
  do Gnorm <- (if String.eqb method_ "H2" then
                 let Nk := size gv in
                 let gvsq := [seq g * g^* | g <- gv] in
                 Ok (np_sqrt (np_trapz [seq x / (Nk%:R - 1) | x <- gvsq]))
               else if String.eqb method_ "Hinf" then np_norm_inf gv
               else Err UnboundLocalError);
  if not_real Gnorm
  then Err (NameError "Norm is not a real number. Verify data/algorithm!")
  else Ok Gnorm.

(** The error that [couple] raises for [out_sparse=True]. *)
Definition raises_not_supported (T : Type) (r : result T) : bool :=
  if r is Err (NameError msg) then
    String.eqb msg "out_sparse=True not supported yet (verify if worth it first)."
  else false.

(** ** Models with two-dimensional matrices *)

(** The instance that [ss(A, B, C, D, dt)] returns for an [n] x [n] matrix
    [A], an [n] x [m] matrix [B], a [p] x [n] matrix [C] and a [p] x [m]
    matrix [D]. *)
Definition mk_ss (n m p : nat) (Am : 'M[F]_n) (Bm : 'M[F]_(n, m))
    (Cm : 'M[F]_(p, n)) (Dm : 'M[F]_(p, m)) (h : option F) : ss :=
  Ss (Mat Am) (Mat Bm) (Mat Cm) (Mat Dm) h (Some m) (Some p) (Some n).

(** The matrices and the time step of an instance: what an observer of the
    public attributes [A], [B], [C], [D] and [dt] sees. *)
Definition mats_of (s : ss) : ndarray * ndarray * ndarray * ndarray * option F :=
  (A s, B s, C s, D s, dt s).

(** The point at which the response of a discrete-time system with time
    step [Ts] is evaluated for the frequency [w]: [cos(w Ts) + j sin(w Ts)]. *)
Definition zpoint (Ts w : F) : F := np_cos (Ts * w) + 'i * np_sin (Ts * w).

(** The response [C (z I - A)^-1 B + D] of the model [(A, B, C, D)] at the
    point [z], as [freqresp] evaluates it: a solve, a product and a sum. *)
Definition tf (n m p : nat) (Am : 'M[F]_n) (Bm : 'M[F]_(n, m)) (Cm : 'M[F]_(p, n))
    (Dm : 'M[F]_(p, m)) (z : F) : 'M[F]_(p, m) :=
  Cm *m (invmx (z%:M - Am) *m Bm) + Dm.

(** The H2 norm as the specification words it: the trapezoidal integral of
    [g conj(g)] is normalized by the sample count. *)
Definition H2_by_sample_count (gv : seq F) : F :=
  np_sqrt (np_trapz [seq g * g^* | g <- gv] / (size gv)%:R).

(** ** Histories of an instance *)

(** The calls that a client makes on an instance after it is built: the
    mutating methods, and reads of the three properties. *)
Inductive op : Type :=
  | AddGain (K : ndarray) (where_ : string)
  | Scale (input_scal output_scal state_scal : scal)
  | Project (WT V : ndarray)
  | Truncate (N : int)
  | RemoveChannels (retain_channels : seq int) (where_ : string)
  | ReadInputs
  | ReadOutputs
  | ReadStates.

Definition call (o : op) : method unit :=
  match o with
  | AddGain K w => ss_addGain K w
  | Scale i o s => ss_scale i o s
  | Project WT V => ss_project WT V
  | Truncate N => ss_truncate N
  | RemoveChannels r w => ss_remove_inout_channels r w
  | ReadInputs => run _ <- inputs; ret tt
  | ReadOutputs => run _ <- outputs; ret tt
  | ReadStates => run _ <- states; ret tt
  end.

(** The instance after a call, whether it returned or raised, and after a
    sequence of calls. *)
Definition after (o : op) (s : ss) : ss := (call o s).2.

Definition after_all (prog : seq op) (s : ss) : ss :=
  foldl (fun s' o => after o s') s prog.

End Model.

(** ** Further functions of the module *)

Section Manipulation.

Variable F : numClosedFieldType.

(** [scipy.linalg.inv(X)]: a square matrix is expected ([ValueError]
    otherwise); a singular one is a numerical failure. *)
Definition scalg_inv (X : ndarray F) : result (ndarray F) :=
  match X with
  | Mat m n _ => if m == n then np_inv X else Err ValueError
  | _ => Err ValueError
  end.

(** [ss.transfer_function_evaluation(s)] *)
Definition ss_transfer_function_evaluation (s : F) : method F (ndarray F) :=
  run '(a, b, c, d) <- @get_mats F;
  lift (do n <- shape_ix a 0;
        do sI_a <- np_sub (np_scale s (np_eye F n)) a;
        do r <- scalg_inv sI_a;
        do cr <- np_dot c r;
        do crb <- np_dot cr b;
        np_add crb d).

(** [project(ss_here, WT, V)]: the projected model, a new instance. *)
Definition project (ss_here : ss F) (WT V : ndarray F) : result (ss F) :=
  do AV <- libsp_dot (A ss_here) V;
  do Ap <- libsp_dot WT AV;
  do Bp <- libsp_dot WT (B ss_here);
  do Cp <- libsp_dot (C ss_here) V;
  ss_new Ap Bp Cp (D ss_here) (dt ss_here).

(** [addGain(SShere, Kmat, where)]: the four tests on [where] are made one
    after the other, each assigning the four matrices when it holds. *)
Definition addGain (SShere : ss F) (Kmat : ndarray F) (where_ : string)
  : result (ss F) :=
  do _ <- assert [|| String.eqb where_ "in", String.eqb where_ "out",
                     String.eqb where_ "parallel-down"
                   | String.eqb where_ "parallel-up"]
            "Specify whether gains are added to input or output";
  let abcd0 : option (ndarray F * ndarray F * ndarray F * ndarray F) := None in
  do abcd1 <- (if String.eqb where_ "in" then
                 do Bn <- np_dot (B SShere) Kmat;
                 do Dn <- np_dot (D SShere) Kmat;
                 Ok (Some (A SShere, Bn, C SShere, Dn))
               else Ok abcd0);
  do abcd2 <- (if String.eqb where_ "out" then
                 do Cn <- np_dot Kmat (C SShere);
                 do Dn <- np_dot Kmat (D SShere);
                 Ok (Some (A SShere, B SShere, Cn, Dn))
               else Ok abcd1);
  do abcd3 <- (if String.eqb where_ "parallel-down" then
                 do r <- shape_ix (B SShere) 0;
                 do c <- shape_ix Kmat 1;
                 do Bn <- block_row (B SShere) (np_zeros F r c);
                 do Dn <- block_row (D SShere) Kmat;
                 Ok (Some (A SShere, Bn, C SShere, Dn))
               else Ok abcd2);
  do abcd4 <- (if String.eqb where_ "parallel-up" then
                 do r <- shape_ix (B SShere) 0;
                 do c <- shape_ix Kmat 1;
                 do Bn <- block_row (np_zeros F r c) (B SShere);
                 do Dn <- block_row Kmat (D SShere);
                 Ok (Some (A SShere, Bn, C SShere, Dn))
               else Ok abcd3);
  match abcd4 with
  | Some (An, Bn, Cn, Dn) =>
      if dt SShere == None then ss_new An Bn Cn Dn None
      else ss_new An Bn Cn Dn (dt SShere)
  | None => Err UnboundLocalError
  end.

(** [SSconv(A, B0, B1, C, D, Bm1)]; [B0] and [Bm1] may be [None]. *)
Definition SSconv (A0 : ndarray F) (B0 : option (ndarray F)) (B1 C0 D0 : ndarray F)
    (Bm1 : option (ndarray F))
  : result (ndarray F * ndarray F * ndarray F * ndarray F) :=
  do Bh <- (match B0 with
            | None => libsp_dot A0 B1
            | Some b0 => do AB1 <- libsp_dot A0 B1; np_add b0 AB1
            end);
  do CB1 <- libsp_dot C0 B1;
  do Dh <- np_add D0 CB1;
  match Bm1 with
  | None => Ok (A0, Bh, C0, Dh)
  | Some bm1 =>
      do Nx <- shape_ix A0 0;
      do Nu <- shape_ix Bh 1;
      do Ny <- shape_ix C0 0;
      do AA <- block_2x2 A0 bm1 (np_zeros F Nu Nx) (np_zeros F Nu Nu);
      do BB <- block_col Bh (np_eye F Nu);
      do CC <- block_row C0 (np_zeros F Ny Nu);
      Ok (AA, BB, CC, Dh)
  end.

(** [x / y] on Python floats *)
Definition py_div (x y : F) : result F :=
  if y == 0 then Err ZeroDivisionError else Ok (x / y).

(** [np.array([[x]])], [np.array([x])] and [np.array([[x], [y]])] *)
Definition array11 (x : F) : ndarray F := Mat (x%:M : 'M[F]_1).
Definition array1 (x : F) : ndarray F := Vec (\row_(j < 1) x).
Definition array21 (x y : F) : ndarray F :=
  Mat (col_mx (x%:M : 'M[F]_1) (y%:M : 'M[F]_1)).

(** [SSderivative(ds)] *)
Definition SSderivative (ds : F)
  : result (ndarray F * ndarray F * ndarray F * ndarray F) :=
  let A0 := array11 0 in
  do bm1 <- py_div 2%:R^-1 ds;
  let Bm1 := array1 bm1 in
  do b0 <- py_div (- 2%:R) ds;
  let B0 := array11 b0 in
  do b1 <- py_div (3%:R / 2%:R) ds;
  let B1 := array11 b1 in
  let C0 := array21 0 1 in
  let D0 := array21 1 0 in
  SSconv A0 (Some B0) B1 C0 D0 (Some Bm1).

(** [SSintegr(ds, method)] *)
Definition SSintegr (ds : F) (method_ : string)
  : result (ndarray F * ndarray F * ndarray F * ndarray F) :=
  let A0 := array11 1 in
  let C0 := array11 1 in
  let D0 := array11 0 in
  if String.eqb method_ "1tay" then
    let B0 := array11 ds in
    Ok (A0, B0, C0, D0)
  else if String.eqb method_ "trap" then
    let B0 := array11 (2%:R^-1 * ds) in
    let B1 := array11 (2%:R^-1 * ds) in
    SSconv A0 (Some B0) B1 C0 D0 None
  else Err (NameError ("Method " ++ method_ ++ " not available!")).

End Manipulation.

(** ** Small models over the algebraic numbers *)

(** The model with one state, one input and one output whose matrices are
    the 1 x 1 matrices [a], [b], [c] and [d]. *)
Definition one_state (a b c d : algC) (h : option algC) : ss algC :=
  mk_ss (a%:M : 'M_1) (b%:M : 'M_1) (c%:M : 'M_1) (d%:M : 'M_1) h.

(** Cosine and sine where the examples evaluate them, at 0. *)
Definition cos_at0 (x : algC) : algC := 1.
Definition sin_at0 (x : algC) : algC := 0.

(** * Properties *)

Section ArrayFacts.

Variable F : numClosedFieldType.

Implicit Types (m n p : nat).

Lemma mx_at_ord m n (M : 'M[F]_(m, n)) (i : 'I_m) (j : 'I_n) : mx_at M i j = M i j.
Proof. by rewrite /mx_at !valK. Qed.

Lemma mx_at_lt m n (M : 'M[F]_(m, n)) i j (hi : (i < m)%N) (hj : (j < n)%N) :
  mx_at M i j = M (Ordinal hi) (Ordinal hj).
Proof. by rewrite /mx_at !insubT. Qed.

(** Two-dimensional arrays of the same shape with the same entries are equal. *)
Lemma Mat_ext m1 n1 m2 n2 (X : 'M[F]_(m1, n1)) (Y : 'M[F]_(m2, n2)) :
  m1 = m2 -> n1 = n2 ->
  (forall i j, (i < m1)%N -> (j < n1)%N -> mx_at X i j = mx_at Y i j) ->
  Mat X = Mat Y.
Proof.
move=> em en; case: _ / em Y; case: _ / en => Y eXY; congr Mat.
by apply/matrixP=> i j; rewrite -!mx_at_ord eXY.
Qed.

Lemma bidx_lt d i : (i < d)%N -> bidx d i = i.
Proof. by rewrite /bidx; case: eqP => // ->; case: i. Qed.

Lemma bitem_Mat m n (M : 'M[F]_(m, n)) (i : 'I_m) (j : 'I_n) : bitem (Mat M) i j = M i j.
Proof. by rewrite /bitem /= !bidx_lt // mx_at_ord. Qed.

Lemma bdimxx d : bdim d d = Some d.
Proof. by rewrite /bdim eqxx. Qed.

Lemma np_add_Mat m n (X Y : 'M[F]_(m, n)) : np_add (Mat X) (Mat Y) = Ok (Mat (X + Y)).
Proof.
rewrite /np_add /broadcast /= !bdimxx /=; congr (Ok (Mat _)).
by apply/matrixP=> i j; rewrite !mxE /bitem /= !bidx_lt // !mx_at_ord.
Qed.

Lemma np_sub_Mat m n (X Y : 'M[F]_(m, n)) : np_sub (Mat X) (Mat Y) = Ok (Mat (X - Y)).
Proof.
rewrite /np_sub /broadcast /= !bdimxx /=; congr (Ok (Mat _)).
by apply/matrixP=> i j; rewrite !mxE /bitem /= !bidx_lt // !mx_at_ord.
Qed.

Lemma np_iadd_Mat m n (X Y : 'M[F]_(m, n)) : np_iadd (Mat X) (Mat Y) = Ok (Mat (X + Y)).
Proof. by rewrite /np_iadd np_add_Mat /= eqxx. Qed.

Lemma np_scale_Mat m n c (X : 'M[F]_(m, n)) : np_scale c (Mat X) = Mat (c *: X).
Proof. by rewrite /np_scale /=; congr Mat; apply/matrixP=> i j; rewrite !mxE. Qed.

Lemma np_neg_Mat m n (X : 'M[F]_(m, n)) : np_neg (Mat X) = Mat (- X).
Proof. by rewrite /np_neg /=; congr Mat; apply/matrixP=> i j; rewrite !mxE. Qed.

Lemma np_dot_Mat m n p (X : 'M[F]_(m, n)) (Y : 'M[F]_(n, p)) :
  np_dot (Mat X) (Mat Y) = Ok (Mat (X *m Y)).
Proof.
rewrite /= eqxx; congr (Ok (Mat _)); apply/matrixP=> i j; rewrite !mxE.
by apply: eq_bigr => k _; rewrite !mx_at_ord.
Qed.

Lemma sq_copy n (M : 'M[F]_n) : \matrix_(i, j) mx_at M i j = M.
Proof. by apply/matrixP=> i j; rewrite mxE mx_at_ord. Qed.

Lemma np_inv_Mat n (M : 'M[F]_n) :
  np_inv (Mat M) = if M \in unitmx then Ok (Mat (invmx M)) else Err LinAlgError.
Proof. by rewrite /= eqxx sq_copy. Qed.

Lemma atleast_2d_Mat m n (M : 'M[F]_(m, n)) : atleast_2d (Mat M) = Mat M.
Proof. by rewrite /atleast_2d /=; congr Mat; apply/matrixP=> i j; rewrite mxE mx_at_ord. Qed.

Lemma hcat_Mat m n1 n2 (X : 'M[F]_(m, n1)) (Y : 'M[F]_(m, n2)) :
  hcat (Mat X) (Mat Y) = Ok (Mat (row_mx X Y)).
Proof.
rewrite /= eqxx; congr (Ok (Mat _)); apply/matrixP=> i j; rewrite !mxE.
by case: splitP => k ->; rewrite ?addKn mx_at_ord.
Qed.

Lemma vcat_Mat m1 m2 n (X : 'M[F]_(m1, n)) (Y : 'M[F]_(m2, n)) :
  vcat (Mat X) (Mat Y) = Ok (Mat (col_mx X Y)).
Proof.
rewrite /= eqxx; congr (Ok (Mat _)); apply/matrixP=> i j; rewrite !mxE.
by case: splitP => k ->; rewrite ?addKn mx_at_ord.
Qed.

Lemma block_2x2_Mat m1 m2 n1 n2 (X11 : 'M[F]_(m1, n1)) (X12 : 'M[F]_(m1, n2))
    (X21 : 'M[F]_(m2, n1)) (X22 : 'M[F]_(m2, n2)) :
  block_2x2 (Mat X11) (Mat X12) (Mat X21) (Mat X22) = Ok (Mat (block_mx X11 X12 X21 X22)).
Proof. by rewrite /block_2x2 !atleast_2d_Mat !hcat_Mat; exact: vcat_Mat. Qed.

Lemma slice_rows_cols_Mat m n (M : 'M[F]_(m, n)) N (hm : (N <= m)%N) (hn : (N <= n)%N) :
  slice_rows_cols (Mat M) N
  = Ok (Mat (\matrix_(i < N, j < N) M (widen_ord hm i) (widen_ord hn j))).
Proof.
congr Ok; apply: Mat_ext; [exact/minn_idPl | exact/minn_idPl | move=> i j].
rewrite (minn_idPl hm) (minn_idPl hn) => hi hj.
rewrite !(mx_at_lt _ hi hj) !mxE (mx_at_lt _ (leq_trans hi hm) (leq_trans hj hn)).
by congr (M _ _); apply: val_inj.
Qed.

Lemma slice_rows_Mat m n (M : 'M[F]_(m, n)) N (hm : (N <= m)%N) :
  slice_rows (Mat M) N = Ok (Mat (\matrix_(i < N, j < n) M (widen_ord hm i) j)).
Proof.
congr Ok; apply: Mat_ext; [exact/minn_idPl | by [] | move=> i j].
rewrite (minn_idPl hm) => hi hj.
rewrite !(mx_at_lt _ hi hj) !mxE (mx_at_lt _ (leq_trans hi hm) hj).
by congr (M _ _); apply: val_inj.
Qed.

Lemma slice_cols_Mat m n (M : 'M[F]_(m, n)) N (hn : (N <= n)%N) :
  slice_cols (Mat M) N = Ok (Mat (\matrix_(i < m, j < N) M i (widen_ord hn j))).
Proof.
congr Ok; apply: Mat_ext; [by [] | exact/minn_idPl | move=> i j].
rewrite (minn_idPl hn) => hi hj.
rewrite !(mx_at_lt _ hi hj) !mxE (mx_at_lt _ hi (leq_trans hj hn)).
by congr (M _ _); apply: val_inj.
Qed.

Lemma slice_rows_Vec n (v : 'rV[F]_n) N : slice_rows (Vec v) N = Err IndexError.
Proof. by []. Qed.

Lemma np_eyeE n : np_eye F n = Mat (1%:M : 'M[F]_n).
Proof. by []. Qed.

Lemma np_zerosE m n : np_zeros F m n = Mat (0 : 'M[F]_(m, n)).
Proof. by []. Qed.

Lemma mx_at_block m1 m2 n1 n2 (Xul : 'M[F]_(m1, n1)) (Xur : 'M[F]_(m1, n2))
    (Xdl : 'M[F]_(m2, n1)) (Xdr : 'M[F]_(m2, n2)) i j :
  (i < m1 + m2)%N -> (j < n1 + n2)%N ->
  mx_at (block_mx Xul Xur Xdl Xdr) i j
  = if (i < m1)%N then
      if (j < n1)%N then mx_at Xul i j else mx_at Xur i (j - n1)
    else
      if (j < n1)%N then mx_at Xdl (i - m1) j else mx_at Xdr (i - m1) (j - n1).
Proof.
move=> hi hj; rewrite (mx_at_lt _ hi hj) !mxE.
case: splitP => [i1 /= ei | i2 /= ei]; rewrite !mxE;
  case: splitP => [j1 /= ej | j2 /= ej]; rewrite ei ej ?ltn_ord ?addKn ?mx_at_ord //;
  by rewrite !ltnNge !leq_addr.
Qed.

Lemma set_block_entry m n (Z : 'M[F]_(m, n)) r0 h c0 w (X : 'M[F]_(h, w)) i j :
  (i < m)%N -> (j < n)%N ->
  forall Z', set_block (Mat Z) r0 h c0 w (Mat X) = Ok Z' ->
  item Z' i j = if (r0 <= i < r0 + h)%N && (c0 <= j < c0 + w)%N
                then mx_at X (i - r0) (j - c0) else mx_at Z i j.
Proof.
move=> hi hj Z'; rewrite /set_block /broadcasts_to /= !eqxx /= => - [<-] /=.
rewrite (mx_at_lt _ hi hj) mxE /=.
case: ifP => // /andP [/andP [ri ih] /andP [cj jw]].
by rewrite /bitem /= !bidx_lt // ltn_subLR.
Qed.

Lemma set_block_shape m n (Z : 'M[F]_(m, n)) r0 h c0 w (X : 'M[F]_(h, w)) :
  exists Z' : 'M[F]_(m, n), set_block (Mat Z) r0 h c0 w (Mat X) = Ok (Mat Z').
Proof. by rewrite /set_block /broadcasts_to /= !eqxx /=; eexists. Qed.

Lemma set_block_ul m1 m2 n1 n2 (Zul : 'M[F]_(m1, n1)) (Zur : 'M[F]_(m1, n2))
    (Zdl : 'M[F]_(m2, n1)) (Zdr : 'M[F]_(m2, n2)) (X : 'M[F]_(m1, n1)) :
  set_block (Mat (block_mx Zul Zur Zdl Zdr)) 0 m1 0 n1 (Mat X)
  = Ok (Mat (block_mx X Zur Zdl Zdr)).
Proof.
have [Z' eZ] := set_block_shape (block_mx Zul Zur Zdl Zdr) 0 0 X.
rewrite eZ; congr Ok; apply: Mat_ext => // i j hi hj.
rewrite -[LHS]/(item (Mat Z') i j) (set_block_entry hi hj eZ) !mx_at_block //.
by rewrite !leq0n !add0n !subn0 /=; case: (i < m1)%N; case: (j < n1)%N.
Qed.

Lemma set_block_dr m1 m2 n1 n2 (Zul : 'M[F]_(m1, n1)) (Zur : 'M[F]_(m1, n2))
    (Zdl : 'M[F]_(m2, n1)) (Zdr : 'M[F]_(m2, n2)) (X : 'M[F]_(m2, n2)) :
  set_block (Mat (block_mx Zul Zur Zdl Zdr)) m1 m2 n1 n2 (Mat X)
  = Ok (Mat (block_mx Zul Zur Zdl X)).
Proof.
have [Z' eZ] := set_block_shape (block_mx Zul Zur Zdl Zdr) m1 n1 X.
rewrite eZ; congr Ok; apply: Mat_ext => // i j hi hj.
rewrite -[LHS]/(item (Mat Z') i j) (set_block_entry hi hj eZ) !mx_at_block //.
by rewrite hi hj !andbT [(m1 <= i)%N]leqNgt [(n1 <= j)%N]leqNgt;
  case: (i < m1)%N; case: (j < n1)%N.
Qed.

Lemma set_block_dl m1 m2 n1 n2 (Zul : 'M[F]_(m1, n1)) (Zur : 'M[F]_(m1, n2))
    (Zdl : 'M[F]_(m2, n1)) (Zdr : 'M[F]_(m2, n2)) (X : 'M[F]_(m2, n1)) :
  set_block (Mat (block_mx Zul Zur Zdl Zdr)) m1 m2 0 n1 (Mat X)
  = Ok (Mat (block_mx Zul Zur X Zdr)).
Proof.
have [Z' eZ] := set_block_shape (block_mx Zul Zur Zdl Zdr) m1 0 X.
rewrite eZ; congr Ok; apply: Mat_ext => // i j hi hj.
rewrite -[LHS]/(item (Mat Z') i j) (set_block_entry hi hj eZ) !mx_at_block //.
by rewrite hi !andbT leq0n add0n subn0 [(m1 <= i)%N]leqNgt /=;
  case: (i < m1)%N; case: (j < n1)%N.
Qed.

Lemma np_zeros_block m1 m2 n1 n2 :
  np_zeros F (m1 + m2) (n1 + n2)
  = Mat (block_mx (0 : 'M[F]_(m1, n1)) (0 : 'M[F]_(m1, n2))
                  (0 : 'M[F]_(m2, n1)) (0 : 'M[F]_(m2, n2))).
Proof.
rewrite np_zerosE; congr Mat; apply/matrixP=> i j; rewrite !mxE.
by case: splitP => ? _; rewrite !mxE; case: splitP => ? _; rewrite mxE.
Qed.

Lemma broadcast_to_Mat m n (Y : 'M[F]_(m, n)) : broadcast_to (Mat Y) m n = Ok (Mat Y).
Proof.
rewrite /broadcast_to /broadcasts_to /= !eqxx /=; congr (Ok (Mat _)).
by apply/matrixP=> i j; rewrite mxE /bitem /= !bidx_lt // mx_at_ord.
Qed.

Lemma libsp_denseE (X : ndarray F) : libsp_dense X = X.
Proof. by []. Qed.

Lemma libsp_dot_Mat m n p (X : 'M[F]_(m, n)) (Y : 'M[F]_(n, p)) :
  libsp_dot (Mat X) (Mat Y) = Ok (Mat (X *m Y)).
Proof. exact: np_dot_Mat. Qed.

Lemma libsp_eye_as_Mat m n (X : 'M[F]_(m, n)) :
  libsp_eye_as (Mat X) = Ok (Mat (1%:M : 'M[F]_m)).
Proof. by []. Qed.

Lemma libsp_solve_Mat n p (X : 'M[F]_n) (Y : 'M[F]_(n, p)) :
  libsp_solve (Mat X) (Mat Y)
  = if X \in unitmx then Ok (Mat (invmx X *m Y)) else Err LinAlgError.
Proof. by rewrite /libsp_solve np_inv_Mat; case: ifP => // _; exact: np_dot_Mat. Qed.

Lemma block_row_Mat m n1 n2 (X : 'M[F]_(m, n1)) (Y : 'M[F]_(m, n2)) :
  block_row (Mat X) (Mat Y) = Ok (Mat (row_mx X Y)).
Proof. by rewrite /block_row [(ndim _ <= 1)%N]/= !atleast_2d_Mat hcat_Mat. Qed.

Lemma block_col_Mat m1 m2 n (X : 'M[F]_(m1, n)) (Y : 'M[F]_(m2, n)) :
  block_col (Mat X) (Mat Y) = Ok (Mat (col_mx X Y)).
Proof. by rewrite /block_col !atleast_2d_Mat vcat_Mat. Qed.

Lemma np_concatenate0_Mat m1 m2 n (X : 'M[F]_(m1, n)) (Y : 'M[F]_(m2, n)) :
  np_concatenate (Mat X) (Mat Y) 0 = Ok (Mat (col_mx X Y)).
Proof. exact: vcat_Mat. Qed.

Lemma np_concatenate1_Mat m n1 n2 (X : 'M[F]_(m, n1)) (Y : 'M[F]_(m, n2)) :
  np_concatenate (Mat X) (Mat Y) 1 = Ok (Mat (row_mx X Y)).
Proof. exact: hcat_Mat. Qed.

Lemma np_max_abs_Mat m n (X : 'M[F]_(m.+1, n.+1)) :
  exists v, np_max (np_abs (Mat X)) = Ok v.
Proof. by rewrite /np_max /size_of /=; eexists. Qed.

Lemma np_sqrt_ge0 (x : F) : 0 <= x -> np_sqrt x = sqrtC x.
Proof. by move=> x0; rewrite /np_sqrt (Creal_ImP _ (ger0_real x0)) lexx. Qed.

End ArrayFacts.

Opaque np_add np_sub np_iadd np_scale np_neg np_abs np_max np_dot np_inv
  np_eye np_zeros atleast_2d hcat vcat block_row block_col block_2x2 np_concatenate
  slice_rows_cols slice_rows slice_cols set_block broadcast_to libsp_dot libsp_solve libsp_eye_as libsp_dense.

Section ClassFacts.

Variable F : numClosedFieldType.

Implicit Types (m n p : nat) (s : ss F).

Lemma ss_new_Mat n m p (Am : 'M[F]_n) (Bm : 'M[F]_(n, m)) (Cm : 'M[F]_(p, n))
    (Dm : 'M[F]_(p, m)) (h : option F) :
  ss_new (Mat Am) (Mat Bm) (Mat Cm) (Mat Dm) h = Ok (mk_ss Am Bm Cm Dm h).
Proof. by rewrite /ss_new /init_body /sbind /= !eqxx. Qed.

Lemma states_value s : (states s).1 = shape_ix (A s) 0.
Proof. by rewrite /states /sbind /=; case: (shape_ix _ _). Qed.

Lemma outputs_value s : (outputs s).1 = shape_ix (C s) 0.
Proof. by rewrite /outputs /sbind /=; case: (shape_ix _ _). Qed.

Lemma inputs_value s :
  (inputs s).1 = if ndim (B s) == 1%N then Ok 1%N else shape_ix (B s) 1.
Proof. by rewrite /inputs /sbind /=; case: ifP => // _; case: (shape_ix _ _). Qed.

Lemma states_mats s : mats_of (states s).2 = mats_of s.
Proof. by rewrite /states /sbind /=; case: (shape_ix _ _). Qed.

Lemma outputs_mats s : mats_of (outputs s).2 = mats_of s.
Proof. by rewrite /outputs /sbind /=; case: (shape_ix _ _). Qed.

Lemma inputs_mats s : mats_of (inputs s).2 = mats_of s.
Proof. by rewrite /inputs /sbind /=; case: ifP => // _; case: (shape_ix _ _). Qed.

(** C2.  At every point of the life of an instance - after it is built and
    after any sequence of calls of [addGain], [scale], [project], [truncate]
    and [remove_inout_channels], interleaved with reads of the properties in
    any order - reading [states] gives [A.shape[0]], reading [outputs] gives
    [C.shape[0]] and reading [inputs] gives [B.shape[1]], or 1 when [B] has a
    single axis, of the matrices the instance holds at that point; the reads
    leave the matrices and the time step as they are. *)
Theorem derived_sizes_follow_matrices (s0 : ss F) (prog : seq (op F)) :
  let s := after_all prog s0 in
  [/\ (states s).1 = shape_ix (A s) 0,
      (outputs s).1 = shape_ix (C s) 0,
      (inputs s).1 = (if ndim (B s) == 1%N then Ok 1%N else shape_ix (B s) 1) &
      [/\ mats_of (states s).2 = mats_of s,
          mats_of (outputs s).2 = mats_of s &
          mats_of (inputs s).2 = mats_of s]].
Proof.
move=> s; split; first exact: states_value.
- exact: outputs_value.
- exact: inputs_value.
- by split; [exact: states_mats | exact: outputs_mats | exact: inputs_mats].
Qed.

(** [truncate(N)] raises whenever [N < 1] or [N] exceeds the number [n] of
    states, whatever the instance.  On a model with an [n] x [n] matrix [A],
    an [n] x [m] matrix [B] stored with two axes and a [p] x [n] matrix [C],
    and for [1 <= N <= n], it returns with [A] replaced by its leading
    [N] x [N] submatrix, [B] by its leading [N] rows and [C] by its leading
    [N] columns; [D] and [dt] are unchanged. *)
Theorem truncate_keeps_leading_states :
  (forall (s : ss F) (n : nat) (N : int),
      shape_ix (A s) 0 = Ok n -> (N < 1) || (n%:Z < N) ->
      (ss_truncate N s).1 = Err (AssertionError "N must be in [1,self.states]"))
  /\
  (forall n m p (Am : 'M[F]_n) (Bm : 'M[F]_(n, m)) (Cm : 'M[F]_(p, n))
      (Dm : 'M[F]_(p, m)) (h : option F) (ci co cs : option nat) (N : nat)
      (hN : (N <= n)%N),
      (0 < N)%N ->
      ss_truncate N%:Z (Ss (Mat Am) (Mat Bm) (Mat Cm) (Mat Dm) h ci co cs)
      = (Ok tt,
         Ss (Mat (\matrix_(i < N, j < N) Am (widen_ord hN i) (widen_ord hN j)))
            (Mat (\matrix_(i < N, j < m) Bm (widen_ord hN i) j))
            (Mat (\matrix_(i < p, j < N) Cm i (widen_ord hN j)))
            (Mat Dm) h ci co (Some n))).
Proof.
split=> [s n N en bad | n m p Am Bm Cm Dm h ci co cs N hN N0].
  rewrite /ss_truncate /sbind /=; case: ifP => [N0 | _] //=.
  rewrite /states /sbind /= en /=.
  by move: bad; rewrite -[1]add0r ltzD1 leNgt N0 /= => nN; rewrite leNgt nN.
rewrite /ss_truncate /sbind /= ltz_nat N0 /= lez_nat hN /=.
by rewrite (slice_rows_cols_Mat _ hN hN) /= (slice_rows_Mat _ hN) /= (slice_cols_Mat _ hN).
Qed.

(** C9, where the code departs from it.  The constructor accepts an input
    matrix [B] stored with a single axis (a model with one input).  On such a
    model with [n] states, [truncate(N)] with [1 <= N <= n] does not return:
    the test on [N] passes, [A] is replaced by its leading [N] x [N]
    submatrix, and the slice [self.B[:N, :]] then raises [IndexError].  The
    instance is left with the truncated [A] and with [B] and [C] as they
    were. *)
Theorem truncate_one_axis_B_raises n p k (Am : 'M[F]_n) (bv : 'rV[F]_k)
    (Cm : 'M[F]_(p, n)) (Dm : 'M[F]_(p, 1)) (h : option F) (N : nat)
    (hN : (N <= n)%N) :
  (0 < N)%N ->
  let self := Ss (Mat Am) (Vec bv) (Mat Cm) (Mat Dm) h (Some 1%N) (Some p) (Some n) in
  ss_new (Mat Am) (Vec bv) (Mat Cm) (Mat Dm) h = Ok self
  /\ ss_truncate N%:Z self
     = (Err IndexError,
        Ss (Mat (\matrix_(i < N, j < N) Am (widen_ord hN i) (widen_ord hN j)))
           (Vec bv) (Mat Cm) (Mat Dm) h (Some 1%N) (Some p) (Some n)).
Proof.
move=> N0 self; split; first by rewrite /ss_new /init_body /sbind /= !eqxx.
rewrite /ss_truncate /sbind /= ltz_nat N0 /= lez_nat hN /=.
by rewrite (slice_rows_cols_Mat _ hN hN) /= slice_rows_Vec.
Qed.

Lemma disc2cont_Mat n m p (Am : 'M[F]_n) (Bm : 'M[F]_(n, m)) (Cm : 'M[F]_(p, n))
    (Dm : 'M[F]_(p, m)) (h : F) (ci co cs : option nat) :
  disc2cont (Ss (Mat Am) (Mat Bm) (Mat Cm) (Mat Dm) (Some h) ci co cs)
  = if Am + 1%:M \in unitmx then
      if h == 0 then Err ZeroDivisionError
      else Ok (mk_ss ((2%:R / h) *: ((Am - 1%:M) *m invmx (Am + 1%:M)))
                     (np_sqrt (2%:R * (2%:R / h)) *: (invmx (Am + 1%:M) *m Bm))
                     (np_sqrt (2%:R * (2%:R / h)) *: (Cm *m invmx (Am + 1%:M)))
                     (Dm - Cm *m (invmx (Am + 1%:M) *m Bm)) None)
    else Err LinAlgError.
Proof.
rewrite /disc2cont /= np_eyeE np_add_Mat /= np_inv_Mat.
case: ifP => //= _; case: ifP => //= _.
by rewrite np_sub_Mat /= !np_dot_Mat /= np_dot_Mat /= np_sub_Mat /= !np_scale_Mat ss_new_Mat.
Qed.

(** C3.  On a discrete-time model with an [n] x [n] matrix [A], an
    [n] x [m] matrix [B], a [p] x [n] matrix [C] and a [p] x [m] matrix [D],
    with sampling interval [dt > 0] and [A + I] invertible, [disc2cont]
    returns the continuous-time model (no [dt]) with
    [Abar = (2/dt) (A - I) (A + I)^-1], [Bbar = sqrt(4/dt) (A + I)^-1 B],
    [Cbar = sqrt(4/dt) C (A + I)^-1] and [Dbar = D - C (A + I)^-1 B].
    It raises when [dt] is absent, whatever the model, and it raises the
    numerical failure [LinAlgError] when [A + I] is singular. *)
Theorem disc2cont_bilinear_transform n m p (Am : 'M[F]_n) (Bm : 'M[F]_(n, m))
    (Cm : 'M[F]_(p, n)) (Dm : 'M[F]_(p, m)) (ci co cs : option nat) :
  [/\ forall h : F, 0 < h -> Am + 1%:M \in unitmx ->
        disc2cont (Ss (Mat Am) (Mat Bm) (Mat Cm) (Mat Dm) (Some h) ci co cs)
        = Ok (mk_ss ((2%:R / h) *: ((Am - 1%:M) *m invmx (Am + 1%:M)))
                    (sqrtC (4%:R / h) *: (invmx (Am + 1%:M) *m Bm))
                    (sqrtC (4%:R / h) *: (Cm *m invmx (Am + 1%:M)))
                    (Dm - Cm *m (invmx (Am + 1%:M) *m Bm)) None),
      forall sys : ss F, dt sys = None ->
        disc2cont sys
        = Err (AssertionError "System to transform is not a discrete-time system.") &
      forall h : F, Am + 1%:M \notin unitmx ->
        disc2cont (Ss (Mat Am) (Mat Bm) (Mat Cm) (Mat Dm) (Some h) ci co cs)
        = Err LinAlgError].
Proof.
split=> [h h0 uA | sys dt0 | h /negbTE nuA]; last by rewrite disc2cont_Mat nuA.
  rewrite disc2cont_Mat uA gt_eqF // mulrA -natrM np_sqrt_ge0 //.
  by rewrite divr_ge0 ?ler0n // ltW.
by rewrite /disc2cont dt0.
Qed.

(** C10.  The method [disc2cont] never modifies the instance: its matrices,
    its time step and its private attributes are after the call what they
    were before, whether the call returns or raises.  On a model with
    two-dimensional matrices of consistent shapes and a time step it returns
    [None] when [A + I] is invertible, and raises [LinAlgError] when [A + I]
    is singular and the time step is not zero. *)
Theorem ss_disc2cont_discards_conversion :
  [/\ forall self : ss F, (ss_disc2cont self).2 = self,
      forall n m p (Am : 'M[F]_n) (Bm : 'M[F]_(n, m)) (Cm : 'M[F]_(p, n))
        (Dm : 'M[F]_(p, m)) (h : F) (ci co cs : option nat),
        Am + 1%:M \in unitmx ->
        (ss_disc2cont (Ss (Mat Am) (Mat Bm) (Mat Cm) (Mat Dm) (Some h) ci co cs)).1
        = Ok tt &
      forall n m p (Am : 'M[F]_n) (Bm : 'M[F]_(n, m)) (Cm : 'M[F]_(p, n))
        (Dm : 'M[F]_(p, m)) (h : F) (ci co cs : option nat),
        h != 0 -> Am + 1%:M \notin unitmx ->
        (ss_disc2cont (Ss (Mat Am) (Mat Bm) (Mat Cm) (Mat Dm) (Some h) ci co cs)).1
        = Err LinAlgError].
Proof.
split=> [self | n m p Am Bm Cm Dm h ci co cs uA | n m p Am Bm Cm Dm h ci co cs h0 /negbTE nuA].
- rewrite /ss_disc2cont /sbind /=; case: (truthy _) => //.
  by case: (disc2cont self).
- rewrite /ss_disc2cont /sbind /=; case: ifP => // h0.
  by rewrite disc2cont_Mat uA (negbTE h0).
- by rewrite /ss_disc2cont /sbind /= h0 disc2cont_Mat nuA.
Qed.

End ClassFacts.

(** ** Calls that leave the matrices of their operands alone *)

Section Frames.

Variable F : numClosedFieldType.

(** A computation on one instance, or on two, that changes at most the
    private attributes behind the properties. *)
Definition frame1 (T : Type) (m : method F T) : Prop :=
  forall s, mats_of (m s).2 = mats_of s.

Definition frame2 (T : Type) (m : st (ss F * ss F) T) : Prop :=
  forall s, mats_of (m s).2.1 = mats_of s.1 /\ mats_of (m s).2.2 = mats_of s.2.

Lemma frame1_inputs : frame1 (@inputs F).
Proof. exact: inputs_mats. Qed.

Lemma frame1_outputs : frame1 (@outputs F).
Proof. exact: outputs_mats. Qed.

Lemma frame1_states : frame1 (@states F).
Proof. exact: states_mats. Qed.

Lemma frame1_read T (f : ss F -> T) : frame1 (read f).
Proof. by []. Qed.

Lemma frame2_on1 T (m : method F T) : frame1 m -> frame2 (on1 m).
Proof. by move=> fm [s1 s2]; rewrite /on1 /=; move: (fm s1); case: (m s1). Qed.

Lemma frame2_on2 T (m : method F T) : frame1 m -> frame2 (on2 m).
Proof. by move=> fm [s1 s2]; rewrite /on2 /=; move: (fm s2); case: (m s2). Qed.

Lemma frame2_lift T (r : result T) : frame2 (lift r).
Proof. by []. Qed.

Lemma frame2_ret T (x : T) : frame2 (ret x).
Proof. by []. Qed.

Lemma frame2_raise T (e : exn) : frame2 (@raise _ T e).
Proof. by []. Qed.

Lemma frame2_sbind T U (m : st (ss F * ss F) T) (k : T -> st (ss F * ss F) U) :
  frame2 m -> (forall x, frame2 (k x)) -> frame2 (sbind m k).
Proof.
move=> fm fk s; rewrite /sbind; move: (fm s); case: (m s) => [[x | e] s'] //= [<- <-].
exact: fk.
Qed.

Lemma frame2_if T (b : bool) (m1 m2 : st (ss F * ss F) T) :
  frame2 m1 -> frame2 m2 -> frame2 (if b then m1 else m2).
Proof. by case: b. Qed.

Ltac frames :=
  repeat match goal with
    | |- frame2 (sbind _ _) => apply: frame2_sbind => [|?]
    | |- frame2 (if _ then _ else _) => apply: frame2_if
    | |- frame2 (lift _) => exact: frame2_lift
    | |- frame2 (ret _) => exact: frame2_ret
    | |- frame2 (raise _) => exact: frame2_raise
    | |- frame2 (on1 (@inputs _)) => exact: (frame2_on1 frame1_inputs)
    | |- frame2 (on2 (@inputs _)) => exact: (frame2_on2 frame1_inputs)
    | |- frame2 (on1 (@outputs _)) => exact: (frame2_on1 frame1_outputs)
    | |- frame2 (on2 (@outputs _)) => exact: (frame2_on2 frame1_outputs)
    | |- frame2 (on1 (@states _)) => exact: (frame2_on1 frame1_states)
    | |- frame2 (on2 (@states _)) => exact: (frame2_on2 frame1_states)
    | |- frame2 (on1 _) => exact: (frame2_on1 (frame1_read _))
    | |- frame2 (on2 _) => exact: (frame2_on2 (frame1_read _))
    | x : Datatypes.prod _ _ |- _ => case: x => ? ?
    end.

Lemma couple_frame (K12 K21 : ndarray F) (out_sparse : bool) :
  frame2 (couple K12 K21 out_sparse).
Proof. by rewrite /couple; frames. Qed.

Lemma series_frame : frame2 (@series F).
Proof. by rewrite /series; frames. Qed.

Lemma parallel_frame : frame2 (@parallel F).
Proof. by rewrite /parallel; frames. Qed.

(** *** The sparse-output request *)

(** How the outcome [r1] of [couple] with [out_sparse=True] relates to the
    outcome [r0] of the same call with [out_sparse=False]: [r1] is an
    exception, the one for the unsupported output when [r0] is a model, and
    the exception [r0] itself whenever it is another one. *)
Definition sparse_rel (r0 r1 : result (ss F)) : Prop :=
  [/\ ~~ is_ok r1,
      is_ok r0 -> raises_not_supported r1 &
      raises_not_supported r1 = false -> r1 = r0].

Lemma sparse_rel_sbind S T (m : st S T) (k0 k1 : T -> st S (ss F)) s :
  (forall x s', sparse_rel (k0 x s').1 (k1 x s').1) ->
  sparse_rel (sbind m k0 s).1 (sbind m k1 s).1.
Proof.
by move=> hk; rewrite /sbind; case: (m s) => [[x | e] s'] /=; [exact: hk | split].
Qed.

Lemma sparse_rel_bind T (m : result T) (k0 k1 : T -> result (ss F)) :
  (forall x, sparse_rel (k0 x) (k1 x)) -> sparse_rel (bind m k0) (bind m k1).
Proof. by move=> hk; case: m => [x | e] /=; [exact: hk | split]. Qed.

Lemma couple_sparse_rel (K12 K21 : ndarray F) (s : ss F * ss F) :
  sparse_rel (couple K12 K21 false s).1 (couple K12 K21 true s).1.
Proof.
rewrite /couple.
do 9![apply: sparse_rel_sbind => ? ?].
apply: sparse_rel_sbind => - [[[A1 B1] C1] D1] ? /=.
rewrite /sbind /lift /=.
do ![apply: sparse_rel_bind => ?].
by split.
Qed.

End Frames.

(** ** Feedback coupling *)

Section CoupleFacts.

Variable F : numClosedFieldType.

Variables (n1 m1 p1 n2 m2 p2 : nat).
Variables (A1 : 'M[F]_n1) (B1 : 'M[F]_(n1, m1.+1)) (C1 : 'M[F]_(p1.+1, n1))
          (D1 : 'M[F]_(p1.+1, m1.+1)).
Variables (A2 : 'M[F]_n2) (B2 : 'M[F]_(n2, m2.+1)) (C2 : 'M[F]_(p2.+1, n2))
          (D2 : 'M[F]_(p2.+1, m2.+1)).
Variables (K12 : 'M[F]_(m1.+1, p2.+1)) (K21 : 'M[F]_(m2.+1, p1.+1)).
Variables (h1 h2 : F) (ci1 co1 cs1 ci2 co2 cs2 : option nat).

Let ss1 := Ss (Mat A1) (Mat B1) (Mat C1) (Mat D1) (Some h1) ci1 co1 cs1.
Let ss2 := Ss (Mat A2) (Mat B2) (Mat C2) (Mat D2) (Some h2) ci2 co2 cs2.

(** The terms as the code computes them. *)
Let L1c : 'M[F]_(m1.+1) := - (K12 *m (D2 *m K21)) *m D1 + 1%:M.
Let L2c : 'M[F]_(m2.+1) := - (K21 *m (D1 *m K12)) *m D2 + 1%:M.
Let cpl_12 := invmx L1c *m K12.
Let cpl_21 := invmx L2c *m K21.
Let cpl_11 := cpl_12 *m (D2 *m K21).
Let cpl_22 := cpl_21 *m (D1 *m K12).

Lemma couple_Mat (out_sparse : bool) :
  `|h1 - h2| < tol F 10 * h1 ->
  (couple (Mat K12) (Mat K21) out_sparse (ss1, ss2)).1
  = if L1c \in unitmx then
      if L2c \in unitmx then
        if out_sparse then
          Err (NameError "out_sparse=True not supported yet (verify if worth it first).")
        else
          Ok (mk_ss
                (block_mx (A1 + B1 *m cpl_11 *m C1) (B1 *m cpl_12 *m C2)
                          (B2 *m cpl_21 *m C1) (A2 + B2 *m cpl_22 *m C2))
                (block_mx (B1 + B1 *m cpl_11 *m D1) (B1 *m cpl_12 *m D2)
                          (B2 *m cpl_21 *m D1) (B2 + B2 *m cpl_22 *m D2))
                (block_mx (C1 + D1 *m cpl_11 *m C1) (D1 *m cpl_12 *m C2)
                          (D2 *m cpl_21 *m C1) (C2 + D2 *m cpl_22 *m C2))
                (block_mx (D1 + D1 *m cpl_11 *m D1) (D1 *m cpl_12 *m D2)
                          (D2 *m cpl_21 *m D1) (D2 + D2 *m cpl_22 *m D2))
                (Some h1))
      else Err LinAlgError
    else Err LinAlgError.
Proof.
move=> hdt; rewrite /couple /sbind /on1 /on2 /= hdt /= !eqxx /=.
have [v1 ->] := np_max_abs_Mat D1; have [v2 ->] := np_max_abs_Mat D2.
do 8![rewrite ?(libsp_dot_Mat, np_neg_Mat, libsp_eye_as_Mat, np_iadd_Mat) /=].
rewrite !libsp_solve_Mat -/L1c -/L2c.
case: ifP => //= _; case: ifP => //= _.
rewrite !libsp_dot_Mat /=; case: out_sparse => //.
do 12![rewrite ?(libsp_dot_Mat, np_add_Mat, libsp_denseE, block_2x2_Mat) /=].
by rewrite ss_new_Mat.
Qed.

(** C1.  For two discrete-time models with two-dimensional matrices, each
    with at least one input and one output, whose sampling intervals match
    (the test of the code: [|dt1 - dt2| < 1e-10 dt1]), and gains [K12] of
    shape (inputs of ss1, outputs of ss2) and [K21] of shape (inputs of ss2,
    outputs of ss1) such that [L1 = I - (K12 D2 K21) D1] and
    [L2 = I - (K21 D1 K12) D2] are invertible, [couple] returns the model over
    the concatenated state whose matrices are the 2 x 2 block assemblies built
    from [cpl12 = L1^-1 K12], [cpl21 = L2^-1 K21], [cpl11 = cpl12 D2 K21] and
    [cpl22 = cpl21 D1 K12], with the sampling interval of ss1; the matrices
    and sampling intervals of both operands are what they were. *)
Theorem couple_block_assembly :
  let L1 := 1%:M - K12 *m D2 *m K21 *m D1 in
  let L2 := 1%:M - K21 *m D1 *m K12 *m D2 in
  let cpl12 := invmx L1 *m K12 in
  let cpl21 := invmx L2 *m K21 in
  let cpl11 := cpl12 *m D2 *m K21 in
  let cpl22 := cpl21 *m D1 *m K12 in
  let r := couple (Mat K12) (Mat K21) false (ss1, ss2) in
  `|h1 - h2| < tol F 10 * h1 -> L1 \in unitmx -> L2 \in unitmx ->
  [/\ r.1 = Ok (mk_ss
                  (block_mx (A1 + B1 *m cpl11 *m C1) (B1 *m cpl12 *m C2)
                            (B2 *m cpl21 *m C1) (A2 + B2 *m cpl22 *m C2))
                  (block_mx (B1 + B1 *m cpl11 *m D1) (B1 *m cpl12 *m D2)
                            (B2 *m cpl21 *m D1) (B2 + B2 *m cpl22 *m D2))
                  (block_mx (C1 + D1 *m cpl11 *m C1) (D1 *m cpl12 *m C2)
                            (D2 *m cpl21 *m C1) (C2 + D2 *m cpl22 *m C2))
                  (block_mx (D1 + D1 *m cpl11 *m D1) (D1 *m cpl12 *m D2)
                            (D2 *m cpl21 *m D1) (D2 + D2 *m cpl22 *m D2))
                  (Some h1)),
      mats_of r.2.1 = mats_of ss1 &
      mats_of r.2.2 = mats_of ss2].
Proof.
move=> L1 L2 cpl12 cpl21 cpl11 cpl22 r hdt uL1 uL2.
have eL1 : L1c = L1 by rewrite /L1c /L1 addrC mulNmx !mulmxA.
have eL2 : L2c = L2 by rewrite /L2c /L2 addrC mulNmx !mulmxA.
have [f1 f2] := couple_frame (Mat K12) (Mat K21) false (ss1, ss2).
split=> //; rewrite /r couple_Mat // eL1 eL2 uL1 uL2.
by rewrite /cpl_11 /cpl_22 /cpl_12 /cpl_21 eL1 eL2 !mulmxA.
Qed.

End CoupleFacts.

Section SparseOutput.

Variable F : numClosedFieldType.

(** C8.  Whatever the models and the gains, [couple] with [out_sparse=True]
    raises and returns no model, and the matrices and sampling intervals of
    both operands are what they were.  The error is the one that reports the
    unsupported sparse output whenever the same call with [out_sparse=False]
    returns a model; and whenever it is another error, it is the very error
    that the same call with [out_sparse=False] raises: that of the check or
    of the solve that fails first. *)
Theorem couple_out_sparse_raises (K12 K21 : ndarray F) (s : ss F * ss F) :
  let r := couple K12 K21 true s in
  let r0 := couple K12 K21 false s in
  [/\ is_ok r.1 = false,
      is_ok r0.1 -> raises_not_supported r.1,
      raises_not_supported r.1 = false -> r.1 = r0.1,
      mats_of r.2.1 = mats_of s.1 &
      mats_of r.2.2 = mats_of s.2].
Proof.
move=> r r0; have [nok sup same] := couple_sparse_rel K12 K21 s.
have [f1 f2] := couple_frame K12 K21 true s.
split; [exact: negbTE | exact: sup | exact: same | exact: f1 | exact: f2].
Qed.

End SparseOutput.

(** ** Frequency response of interconnections *)

Section ResponseFacts.

Variable F : numClosedFieldType.
Variables np_cos np_sin : F -> F.

Local Notation response := (freqresp np_cos np_sin).
Local Notation zp := (zpoint np_cos np_sin).

Lemma freqresp_Mat n m p (Am : 'M[F]_n) (Bm : 'M[F]_(n, m)) (Cm : 'M[F]_(p, n))
    (Dm : 'M[F]_(p, m)) (h : F) (ci co cs : option nat) (wv : seq F) :
  (forall w, w \in wv -> (zp h w)%:M - Am \in unitmx) ->
  response (PySs (Ss (Mat Am) (Mat Bm) (Mat Cm) (Mat Dm) (Some h) ci co cs)) wv true
  = Ok [seq Mat (tf Am Bm Cm Dm (zp h w)) | w <- wv].
Proof.
rewrite /freqresp /= libsp_eye_as_Mat /=.
elim: wv => [|w wv IH] //= uA.
rewrite np_scale_Mat scalemx1 np_sub_Mat /= libsp_solve_Mat uA ?mem_head //=.
rewrite libsp_dot_Mat /= np_add_Mat /= broadcast_to_Mat /=.
by rewrite IH // => w' w'wv; apply: uA; rewrite in_cons w'wv orbT.
Qed.

Lemma restore_Mat m n (M : 'M[F]_(m, n)) : _restore (Mat M) m n = Ok (Mat M).
Proof.
rewrite /_restore /= eqxx /=; case: m n M => [|m] [|n] M //=.
by rewrite np_zerosE; congr (Ok (Mat _)); apply/matrixP; case.
Qed.

Lemma abcd_normalize_Mat n m p (Am : 'M[F]_n) (Bm : 'M[F]_(n, m)) (Cm : 'M[F]_(p, n))
    (Dm : 'M[F]_(p, m)) :
  abcd_normalize (Mat Am) (Mat Bm) (Mat Cm) (Mat Dm)
  = Ok (Mat Am, Mat Bm, Mat Cm, Mat Dm).
Proof. by rewrite /abcd_normalize !atleast_2d_Mat /= !restore_Mat. Qed.

Section Series.

Variables (n1 n2 m q p : nat).
Variables (A1 : 'M[F]_n1) (B1 : 'M[F]_(n1, m)) (C1 : 'M[F]_(q, n1)) (D1 : 'M[F]_(q, m)).
Variables (A2 : 'M[F]_n2) (B2 : 'M[F]_(n2, q)) (C2 : 'M[F]_(p, n2)) (D2 : 'M[F]_(p, q)).

Lemma series_Mat (h : option F) (ci1 co1 cs1 ci2 co2 cs2 : option nat) :
  (series (Ss (Mat A1) (Mat B1) (Mat C1) (Mat D1) h ci1 co1 cs1,
           Ss (Mat A2) (Mat B2) (Mat C2) (Mat D2) h ci2 co2 cs2)).1
  = Ok (mk_ss (block_mx A1 0 (B2 *m C1) A2) (col_mx B1 (B2 *m D1))
              (row_mx (D2 *m C1) C2) (D2 *m D1) h).
Proof.
rewrite /series /sbind /on1 /on2 /= eqxx /=.
rewrite np_zeros_block !libsp_denseE set_block_ul /= set_block_dr /=.
rewrite libsp_dot_Mat /= set_block_dl /= libsp_dot_Mat /= np_concatenate0_Mat /=.
by rewrite libsp_dot_Mat /= np_concatenate1_Mat /= libsp_dot_Mat /= ss_new_Mat.
Qed.

Lemma series_resolvent (z : F) :
  z%:M - A1 \in unitmx -> z%:M - A2 \in unitmx ->
  z%:M - block_mx A1 0 (B2 *m C1) A2 \in unitmx.
Proof.
move=> u1 u2; rewrite scalar_mx_block opp_block_mx add_block_mx.
by rewrite unitmxE subr0 det_lblock unitrM -!unitmxE u1 u2.
Qed.

Lemma series_tf (z : F) :
  z%:M - A1 \in unitmx -> z%:M - A2 \in unitmx ->
  tf (block_mx A1 0 (B2 *m C1) A2) (col_mx B1 (B2 *m D1))
     (row_mx (D2 *m C1) C2) (D2 *m D1) z
  = tf A2 B2 C2 D2 z *m tf A1 B1 C1 D1 z.
Proof.
move=> u1 u2; have u12 := series_resolvent u1 u2; rewrite /tf.
set R1 := z%:M - A1 in u1 *; set R2 := z%:M - A2 in u2 *.
set X1 := invmx R1 *m B1.
set X2 := invmx R2 *m (B2 *m C1 *m X1 + B2 *m D1).
have -> : invmx (z%:M - block_mx A1 0 (B2 *m C1) A2) *m col_mx B1 (B2 *m D1)
          = col_mx X1 X2.
  apply: (canLR (mulKmx u12)).
  rewrite scalar_mx_block opp_block_mx add_block_mx subr0 sub0r -/R1 -/R2.
  rewrite mul_block_col mul0mx addr0 mulKVmx // mulNmx.
  by rewrite /X2 mulKVmx // addrA addNr add0r.
rewrite mul_row_col /X2 /X1 mulmxDl !mulmxDr !mulmxA.
by rewrite [X in X + _ = _]addrC -!addrA.
Qed.

(** C4.  For two discrete-time models with two-dimensional matrices and
    the same sampling interval, the outputs of the first being the inputs of
    the second, and for all frequencies at which the responses of the two
    models exist (the evaluation point is an eigenvalue of neither [A1] nor
    [A2]), [series] returns the cascade model and its frequency response is,
    at each frequency, the matrix product of the response of the second model
    by the response of the first, exactly. *)
Theorem series_freqresp_product (h : F) (ci1 co1 cs1 ci2 co2 cs2 : option nat)
    (wv : seq F) :
  let ss1 := Ss (Mat A1) (Mat B1) (Mat C1) (Mat D1) (Some h) ci1 co1 cs1 in
  let ss2 := Ss (Mat A2) (Mat B2) (Mat C2) (Mat D2) (Some h) ci2 co2 cs2 in
  let ss12 := mk_ss (block_mx A1 0 (B2 *m C1) A2) (col_mx B1 (B2 *m D1))
                    (row_mx (D2 *m C1) C2) (D2 *m D1) (Some h) in
  (forall w, w \in wv ->
     ((zp h w)%:M - A1 \in unitmx) && ((zp h w)%:M - A2 \in unitmx)) ->
  [/\ (series (ss1, ss2)).1 = Ok ss12,
      response (PySs ss1) wv true = Ok [seq Mat (tf A1 B1 C1 D1 (zp h w)) | w <- wv],
      response (PySs ss2) wv true = Ok [seq Mat (tf A2 B2 C2 D2 (zp h w)) | w <- wv] &
      response (PySs ss12) wv true
      = Ok [seq Mat (tf A2 B2 C2 D2 (zp h w) *m tf A1 B1 C1 D1 (zp h w)) | w <- wv]].
Proof.
move=> ss1 ss2 ss12 u; split; first exact: series_Mat.
- by apply: freqresp_Mat => w /u /andP [].
- by apply: freqresp_Mat => w /u /andP [].
rewrite /ss12 /mk_ss freqresp_Mat => [w /u /andP [u1 u2]|]; first exact: series_resolvent.
congr (Ok _); apply/eq_in_map => w /u /andP [u1 u2].
by rewrite series_tf.
Qed.

End Series.

Section Parallel.

Variables (n1 n2 m1 m2 p : nat).
Variables (A1 : 'M[F]_n1) (B1 : 'M[F]_(n1, m1)) (C1 : 'M[F]_(p, n1)) (D1 : 'M[F]_(p, m1)).
Variables (A2 : 'M[F]_n2) (B2 : 'M[F]_(n2, m2)) (C2 : 'M[F]_(p, n2)) (D2 : 'M[F]_(p, m2)).

Lemma parallel_resolvent (z : F) :
  z%:M - A1 \in unitmx -> z%:M - A2 \in unitmx ->
  z%:M - block_mx A1 0 0 A2 \in unitmx.
Proof.
move=> u1 u2; rewrite scalar_mx_block opp_block_mx add_block_mx.
by rewrite unitmxE !subr0 det_lblock unitrM -!unitmxE u1 u2.
Qed.

Lemma parallel_tf (z : F) :
  z%:M - A1 \in unitmx -> z%:M - A2 \in unitmx ->
  tf (block_mx A1 0 0 A2) (block_mx B1 0 0 B2) (row_mx C1 C2) (row_mx D1 D2) z
  = row_mx (tf A1 B1 C1 D1 z) (tf A2 B2 C2 D2 z).
Proof.
move=> u1 u2; have := parallel_resolvent u1 u2; rewrite /tf.
rewrite scalar_mx_block opp_block_mx add_block_mx !subr0 => u12.
rewrite invmx_block_diag // mulmx_block !mul0mx !mulmx0 !addr0 !add0r.
by rewrite mul_row_block !mulmx0 addr0 add0r add_row_mx.
Qed.

Lemma parallel_Mat (h : option F) (ci1 co1 cs1 ci2 co2 cs2 : option nat) :
  (parallel (Ss (Mat A1) (Mat B1) (Mat C1) (Mat D1) h ci1 co1 cs1,
             Ss (Mat A2) (Mat B2) (Mat C2) (Mat D2) h ci2 co2 cs2)).1
  = Ok (PyDlti (StateSpace (Mat (block_mx A1 0 0 A2)) (Mat (block_mx B1 0 0 B2))
                           (Mat (row_mx C1 C2)) (Mat (row_mx D1 D2)) h)).
Proof.
rewrite /parallel /sbind /on1 /on2 /= eqxx /= eqxx /=.
rewrite !np_zeros_block set_block_ul /= set_block_dr /= set_block_ul /= set_block_dr /=.
by rewrite !block_row_Mat /= /scsig_dlti abcd_normalize_Mat.
Qed.

(** C5.  For two discrete-time models with two-dimensional matrices, the
    same number of outputs and the same sampling interval, [parallel] returns
    a scipy discrete-time system whose states and inputs are those of the two
    models side by side and whose output is the sum of their outputs.  At all
    frequencies at which the responses of the two models exist, the frequency
    response of the matrices it returns is the response of the first model
    followed, column-wise, by the response of the second: the block row
    [[G1, G2]]. *)
Theorem parallel_freqresp_block_row (h : F) (ci1 co1 cs1 ci2 co2 cs2 : option nat)
    (wv : seq F) :
  let ss1 := Ss (Mat A1) (Mat B1) (Mat C1) (Mat D1) (Some h) ci1 co1 cs1 in
  let ss2 := Ss (Mat A2) (Mat B2) (Mat C2) (Mat D2) (Some h) ci2 co2 cs2 in
  let Ap := block_mx A1 0 0 A2 in
  let Bp := block_mx B1 0 0 B2 in
  let Cp := row_mx C1 C2 in
  let Dp := row_mx D1 D2 in
  (forall w, w \in wv ->
     ((zp h w)%:M - A1 \in unitmx) && ((zp h w)%:M - A2 \in unitmx)) ->
  [/\ (parallel (ss1, ss2)).1
      = Ok (PyDlti (StateSpace (Mat Ap) (Mat Bp) (Mat Cp) (Mat Dp) (Some h))),
      response (PySs ss1) wv true = Ok [seq Mat (tf A1 B1 C1 D1 (zp h w)) | w <- wv],
      response (PySs ss2) wv true = Ok [seq Mat (tf A2 B2 C2 D2 (zp h w)) | w <- wv] &
      response (PySs (mk_ss Ap Bp Cp Dp (Some h))) wv true
      = Ok [seq Mat (row_mx (tf A1 B1 C1 D1 (zp h w)) (tf A2 B2 C2 D2 (zp h w)))
           | w <- wv]].
Proof.
move=> ss1 ss2 Ap Bp Cp Dp u; split; first exact: parallel_Mat.
- by apply: freqresp_Mat => w /u /andP [].
- by apply: freqresp_Mat => w /u /andP [].
rewrite /mk_ss freqresp_Mat => [w /u /andP [u1 u2]|]; first exact: parallel_resolvent.
congr (Ok _); apply/eq_in_map => w /u /andP [u1 u2].
by rewrite parallel_tf.
Qed.

End Parallel.

End ResponseFacts.

(** ** Joining and summing systems and gains *)

Section JoinFacts.

Variable F : numClosedFieldType.

Lemma scsig_StateSpace_Mat n m p (Am : 'M[F]_n) (Bm : 'M[F]_(n, m)) (Cm : 'M[F]_(p, n))
    (Dm : 'M[F]_(p, m)) (h : F) :
  scsig_StateSpace (Mat Am) (Mat Bm) (Mat Cm) (Mat Dm) (Some h)
  = Ok (PyDlti (StateSpace (Mat Am) (Mat Bm) (Mat Cm) (Mat Dm) (Some h))).
Proof. by rewrite /scsig_StateSpace abcd_normalize_Mat. Qed.

Lemma join2_gain_gain p1 m1 p2 m2 (K1 : 'M[F]_(p1, m1)) (K2 : 'M[F]_(p2, m2)) :
  join2 (PyArr (Mat K1)) (PyArr (Mat K2)) = Ok (PyArr (Mat (block_mx K1 0 0 K2))).
Proof. by rewrite /join2 /= !np_zerosE block_2x2_Mat. Qed.

Lemma join2_gain_dlti p1 m1 n2 m2 p2 (K1 : 'M[F]_(p1, m1)) (A2 : 'M[F]_n2)
    (B2 : 'M[F]_(n2, m2)) (C2 : 'M[F]_(p2, n2)) (D2 : 'M[F]_(p2, m2)) (h : F) :
  join2 (PyArr (Mat K1)) (PyDlti (StateSpace (Mat A2) (Mat B2) (Mat C2) (Mat D2) (Some h)))
  = Ok (PyDlti (StateSpace (Mat A2) (Mat (row_mx (0 : 'M_(n2, m1)) B2))
                           (Mat (col_mx (0 : 'M_(p1, n2)) C2))
                           (Mat (block_mx K1 0 0 D2)) (Some h))).
Proof.
rewrite /join2 /= /lti_inputs /lti_outputs /= !np_zerosE block_row_Mat /=.
by rewrite block_col_Mat /= block_2x2_Mat /= scsig_StateSpace_Mat.
Qed.

Lemma join2_dlti_gain n1 m1 p1 p2 m2 (A1 : 'M[F]_n1) (B1 : 'M[F]_(n1, m1))
    (C1 : 'M[F]_(p1, n1)) (D1 : 'M[F]_(p1, m1)) (h : F) (K2 : 'M[F]_(p2, m2)) :
  join2 (PyDlti (StateSpace (Mat A1) (Mat B1) (Mat C1) (Mat D1) (Some h))) (PyArr (Mat K2))
  = Ok (PyDlti (StateSpace (Mat A1) (Mat (row_mx B1 (0 : 'M_(n1, m2))))
                           (Mat (col_mx C1 (0 : 'M_(p2, n1))))
                           (Mat (block_mx D1 0 0 K2)) (Some h))).
Proof.
rewrite /join2 /= /lti_inputs /lti_outputs /= !np_zerosE block_row_Mat /=.
by rewrite block_col_Mat /= block_2x2_Mat /= scsig_StateSpace_Mat.
Qed.

Lemma join2_dlti_dlti n1 m1 p1 n2 m2 p2 (A1 : 'M[F]_n1) (B1 : 'M[F]_(n1, m1))
    (C1 : 'M[F]_(p1, n1)) (D1 : 'M[F]_(p1, m1)) (A2 : 'M[F]_n2) (B2 : 'M[F]_(n2, m2))
    (C2 : 'M[F]_(p2, n2)) (D2 : 'M[F]_(p2, m2)) (h : F) :
  join2 (PyDlti (StateSpace (Mat A1) (Mat B1) (Mat C1) (Mat D1) (Some h)))
        (PyDlti (StateSpace (Mat A2) (Mat B2) (Mat C2) (Mat D2) (Some h)))
  = Ok (PyDlti (StateSpace (Mat (block_mx A1 0 0 A2)) (Mat (block_mx B1 0 0 B2))
                           (Mat (block_mx C1 0 0 C2)) (Mat (block_mx D1 0 0 D2))
                           (Some h))).
Proof.
rewrite /join2 /= eqxx /= /lti_inputs /lti_outputs /= !np_zerosE.
by rewrite !block_2x2_Mat /= scsig_StateSpace_Mat.
Qed.

Lemma sum_ss_gain_gain p m (K1 K2 : 'M[F]_(p, m)) (negative : bool) :
  sum_ss (PyArr (Mat K1)) (PyArr (Mat K2)) negative = Ok (PyArr (Mat (K1 + K2))).
Proof. by rewrite /sum_ss /= np_add_Mat. Qed.

Lemma sum_ss_gain_dlti n m p (Kmat : 'M[F]_(p, m)) (A2 : 'M[F]_n) (B2 : 'M[F]_(n, m))
    (C2 : 'M[F]_(p, n)) (D2 : 'M[F]_(p, m)) (h : F) (negative : bool) :
  sum_ss (PyArr (Mat Kmat))
         (PyDlti (StateSpace (Mat A2) (Mat B2) (Mat C2) (Mat D2) (Some h))) negative
  = Ok (PyDlti (StateSpace (Mat A2) (Mat B2) (Mat C2) (Mat (D2 + Kmat)) (Some h))).
Proof. by rewrite /sum_ss /= np_add_Mat /= scsig_StateSpace_Mat. Qed.

Lemma sum_ss_dlti_dlti n1 n2 m p (A1 : 'M[F]_n1) (B1 : 'M[F]_(n1, m))
    (C1 : 'M[F]_(p, n1)) (D1 : 'M[F]_(p, m)) (A2 : 'M[F]_n2) (B2 : 'M[F]_(n2, m))
    (C2 : 'M[F]_(p, n2)) (D2 : 'M[F]_(p, m)) (h1 h2 : F) (negative : bool) :
  h2 != 0 -> `|1 - h1 / h2| < tol F 13 ->
  sum_ss (PyDlti (StateSpace (Mat A1) (Mat B1) (Mat C1) (Mat D1) (Some h1)))
         (PyDlti (StateSpace (Mat A2) (Mat B2) (Mat C2) (Mat D2) (Some h2))) negative
  = Ok (PyDlti (StateSpace (Mat (block_mx A1 0 0 A2)) (Mat (col_mx B1 B2))
                           (Mat (row_mx C1 C2)) (Mat (D1 + D2)) (Some h1))).
Proof.
move=> /negbTE h20 hdt; rewrite /sum_ss /= h20 hdt /= !np_zerosE block_2x2_Mat /=.
by rewrite block_col_Mat /= block_row_Mat /= np_add_Mat /= scsig_StateSpace_Mat.
Qed.

(** C6, where the code departs from it.  [sum_ss] of a dynamic system and a
    gain, in this order, never returns: the branch reads [SS2.dt], and [SS2] is
    the gain array there, which has no such attribute.  With a gain of the shape
    of [D] the exception is [AttributeError]. *)
Theorem sum_ss_dynamic_gain_raises :
  (forall (S1 : statespace F) (Kmat : ndarray F) (negative : bool),
      is_ok (sum_ss (PyDlti S1) (PyArr Kmat) negative) = false)
  /\
  (forall n m p (A1 : 'M[F]_n) (B1 : 'M[F]_(n, m)) (C1 : 'M[F]_(p, n))
      (D1 Kmat : 'M[F]_(p, m)) (h : F) (negative : bool),
      sum_ss (PyDlti (StateSpace (Mat A1) (Mat B1) (Mat C1) (Mat D1) (Some h)))
             (PyArr (Mat Kmat)) negative
      = Err AttributeError).
Proof.
split=> [S1 Kmat negative | n m p A1 B1 C1 D1 Kmat h negative].
  by rewrite /sum_ss /=; case: (supported_type Kmat) => //=; case: (np_add _ _).
by rewrite /sum_ss /= np_add_Mat.
Qed.

End JoinFacts.

(** ** Norms of a frequency response *)

Section NormFacts.

Variable F : numClosedFieldType.

Implicit Types (g x c v : F) (gv y : seq F).

Lemma tol_gt0 k : 0 < tol F k.
Proof. by rewrite /tol invr_gt0 exprn_gt0 // ltr0n. Qed.

Lemma np_trapz_scale c y : np_trapz [seq x / c | x <- y] = np_trapz y / c.
Proof.
elim: y => [|y0 y IH] /=; first by rewrite mul0r.
case: y IH => [|y1 y] /= IH; first by rewrite mul0r.
by rewrite IH -mulrDl mulrAC -mulrDl.
Qed.

Lemma np_trapz_ge0 y : all (fun x => 0 <= x) y -> 0 <= np_trapz y.
Proof.
elim: y => [|y0 y IH] //= /andP [y00 ally].
case: y IH ally => [|y1 y] //= IH ally; have /andP [y10 _] := ally.
by rewrite addr_ge0 ?IH // divr_ge0 ?addr_ge0 // ler0n.
Qed.

Lemma sq_modulus_ge0 gv : all (fun x => 0 <= x) [seq g * g^* | g <- gv].
Proof. by apply/allP => _ /mapP [g _ ->]; rewrite -normCK exprn_ge0. Qed.

Lemma mean_square_ge0 gv :
  0 <= np_trapz [seq g * g^* | g <- gv] / ((size gv)%:R - 1).
Proof.
case: gv => [|g0 gv]; first by rewrite /= mul0r.
rewrite divr_ge0 ?np_trapz_ge0 ?sq_modulus_ge0 //.
by rewrite subr_ge0 ler1n.
Qed.

Lemma not_real_ge0 v : 0 <= v -> not_real v = false.
Proof.
move=> v0; rewrite /not_real (Creal_ImP _ (ger0_real v0)) eqxx mul0r normr0.
by case: ifP => // _; rewrite lt_gtF // tol_gt0.
Qed.

Lemma foldl_max_sup (a : F) (l : seq F) :
  0 <= a -> all (fun x => 0 <= x) l ->
  [/\ 0 <= foldl Num.max a l,
      foldl Num.max a l \in a :: l &
      forall x, x \in a :: l -> x <= foldl Num.max a l].
Proof.
elim: l a => [|b l IH] a a0 /=.
  by move=> _; split=> // [|x]; rewrite inE // => /eqP ->.
move=> /andP [b0 l0].
have [ab | ba] := real_leP (ger0_real a0) (ger0_real b0).
  have [v0 vin vub] := IH b b0 l0; split=> // [|x].
    by rewrite in_cons vin orbT.
  rewrite in_cons => /orP [/eqP -> | /vub //].
  by apply: le_trans ab _; apply: vub; rewrite mem_head.
have [v0 vin vub] := IH a a0 l0; split=> // [|x].
  by move: vin; rewrite !in_cons => /orP [-> | ->]; rewrite ?orbT.
rewrite !in_cons => /or3P [/eqP -> | /eqP -> | xl].
- by apply: vub; rewrite mem_head.
- by apply: le_trans (ltW ba) _; apply: vub; rewrite mem_head.
- by apply: vub; rewrite in_cons xl orbT.
Qed.

Lemma Hnorm_H2 gv :
  Hnorm_from_freq_resp gv "H2"
  = Ok (sqrtC (np_trapz [seq g * g^* | g <- gv] / ((size gv)%:R - 1))).
Proof.
rewrite /Hnorm_from_freq_resp /= np_trapz_scale np_sqrt_ge0 ?mean_square_ge0 //.
by rewrite not_real_ge0 // sqrtC_ge0 mean_square_ge0.
Qed.

(** C7.  For the method ['H2'], [Hnorm_from_freq_resp] returns the square
    root of the trapezoidal integral of [g conj(g)] divided by the number of
    samples less one (the number of intervals between the samples).  For the
    method ['Hinf'] and at least one sample it returns the largest modulus of
    the samples.  Whatever the samples and the method, a value whose imaginary
    part is not negligible against its real part is never returned: the
    function raises instead. *)
Theorem Hnorm_from_freq_resp_value (gv : seq F) :
  [/\ Hnorm_from_freq_resp gv "H2"
      = Ok (sqrtC (np_trapz [seq g * g^* | g <- gv] / ((size gv)%:R - 1))),
      gv != [::] ->
        exists v, [/\ Hnorm_from_freq_resp gv "Hinf" = Ok v,
                      v \in [seq `|g| | g <- gv] &
                      forall g, g \in gv -> `|g| <= v] &
      forall (method_ : string) (v : F),
        Hnorm_from_freq_resp gv method_ = Ok v -> not_real v = false].
Proof.
split=> [|gv0|method_ v]; first exact: Hnorm_H2.
- case: gv gv0 => [|g0 gv] // _.
  have [|v0 vin vub] := @foldl_max_sup `|g0| [seq `|g| | g <- gv] (normr_ge0 _).
    by apply/allP => _ /mapP [g _ ->].
  exists (foldl Num.max `|g0| [seq `|g| | g <- gv]); split=> // [|g gin].
    by rewrite /Hnorm_from_freq_resp /= not_real_ge0.
  by apply: vub; rewrite -[_ :: _]/(map _ (g0 :: gv)) map_f.
- rewrite /Hnorm_from_freq_resp; case: (if _ then _ else _) => [Gnorm | e] //=.
  by case: ifP => // nr [<-].
Qed.

End NormFacts.

(** ** The statements at concrete models *)

Section Examples.

Local Notation s0110 := (one_state 0 1 1 0 (Some 1)).
Local Notation I1 := (1%:M : 'M[algC]_1).

Lemma unit_scalar1 (a : algC) : ((a%:M : 'M[algC]_1) \in unitmx) = (a != 0).
Proof. by rewrite unitmxE det_scalar1 unitfE. Qed.

Lemma dt_match1 : `|(1 : algC) - 1| < tol algC 10 * 1.
Proof. by rewrite subrr normr0 mulr1 tol_gt0. Qed.

Lemma zpoint_at0 (h : algC) : zpoint cos_at0 sin_at0 h 0 = 1.
Proof. by rewrite /zpoint /cos_at0 /sin_at0 mulr0 addr0. Qed.

Lemma resolvent_at0 (h : algC) (w : algC) :
  w \in [:: 0] -> (zpoint cos_at0 sin_at0 h w)%:M - (0%:M : 'M[algC]_1) \in unitmx.
Proof. by rewrite inE => /eqP ->; rewrite zpoint_at0 raddf0 subr0 unitmx1. Qed.

Lemma resolvent_1 : (1 : algC)%:M - (0%:M : 'M[algC]_1) \in unitmx.
Proof. by rewrite -(zpoint_at0 1) resolvent_at0 ?mem_head. Qed.

Lemma tf_0110 : tf (0%:M : 'M[algC]_1) I1 I1 (0%:M : 'M[algC]_1) 1 = I1.
Proof. by rewrite /tf !raddf0 !addr0 invmx1 !mulmx1. Qed.

(** C1 at two one-state models coupled through unit gains. *)
Lemma couple_block_assembly_witness :
  [/\ `|(1 : algC) - 1| < tol algC 10 * 1,
      I1 - I1 *m (1%:M : 'M[algC]_1) *m I1 *m (0%:M : 'M[algC]_1) \in unitmx,
      I1 - I1 *m (0%:M : 'M[algC]_1) *m I1 *m (1%:M : 'M[algC]_1) \in unitmx &
      is_ok (couple (Mat I1) (Mat I1) false (s0110, one_state 0 1 1 1 (Some 1))).1].
Proof.
have hdt := dt_match1.
have u1 : I1 - I1 *m (1%:M : 'M[algC]_1) *m I1 *m (0%:M : 'M[algC]_1) \in unitmx.
  by rewrite raddf0 mulmx0 subr0 unitmx1.
have u2 : I1 - I1 *m (0%:M : 'M[algC]_1) *m I1 *m (1%:M : 'M[algC]_1) \in unitmx.
  by rewrite raddf0 mulmx0 !mul0mx subr0 unitmx1.
split=> //.
have [-> _ _] := @couple_block_assembly algC 1 0 0 1 0 0 0%:M 1%:M 1%:M 0%:M
                   0%:M 1%:M 1%:M 1%:M 1%:M 1%:M 1 1
                   (Some 1%N) (Some 1%N) (Some 1%N) (Some 1%N) (Some 1%N) (Some 1%N)
                   hdt u1 u2.
by [].
Defined.

(** C3 at a one-state model with [A = 0] and sampling interval 1. *)
Lemma disc2cont_bilinear_transform_witness :
  [/\ 0 < (1 : algC),
      (0%:M : 'M[algC]_1) + 1%:M \in unitmx &
      is_ok (disc2cont s0110)].
Proof.
have u : (0%:M : 'M[algC]_1) + 1%:M \in unitmx by rewrite raddf0 add0r unitmx1.
split=> //.
have [H _ _] := @disc2cont_bilinear_transform algC 1 1 1 0%:M 1%:M 1%:M 0%:M
                  (Some 1%N) (Some 1%N) (Some 1%N).
by rewrite /one_state /mk_ss (H 1 ltr01 u).
Defined.

(** C4 at two copies of a one-state model, at the frequency 0. *)
Lemma series_freqresp_product_witness :
  [/\ (zpoint cos_at0 sin_at0 1 0)%:M - (0%:M : 'M[algC]_1) \in unitmx,
      is_ok (series (s0110, s0110)).1 &
      freqresp cos_at0 sin_at0
        (PySs (mk_ss (block_mx (0%:M : 'M[algC]_1) 0 (I1 *m I1) (0%:M : 'M[algC]_1))
                     (col_mx I1 (I1 *m (0%:M : 'M[algC]_1)))
                     (row_mx ((0%:M : 'M[algC]_1) *m I1) I1)
                     ((0%:M : 'M[algC]_1) *m (0%:M : 'M[algC]_1)) (Some 1)))
        [:: 0] true
      = Ok [:: Mat (I1 *m I1)]].
Proof.
have u w : w \in [:: 0] ->
    ((zpoint cos_at0 sin_at0 1 w)%:M - (0%:M : 'M[algC]_1) \in unitmx)
    && ((zpoint cos_at0 sin_at0 1 w)%:M - (0%:M : 'M[algC]_1) \in unitmx).
  by move=> hw; rewrite resolvent_at0.
have [e1 _ _ e4] := series_freqresp_product (A1 := 0%:M) I1 I1 0%:M (A2 := 0%:M) I1 I1 0%:M
                      (Some 1%N) (Some 1%N) (Some 1%N) (Some 1%N) (Some 1%N) (Some 1%N) u.
split; first by rewrite resolvent_at0 ?mem_head.
  by rewrite /one_state /mk_ss e1.
by rewrite e4 /= zpoint_at0 tf_0110.
Defined.

(** C5 at two copies of a one-state model, at the frequency 0. *)
Lemma parallel_freqresp_block_row_witness :
  [/\ (zpoint cos_at0 sin_at0 1 0)%:M - (0%:M : 'M[algC]_1) \in unitmx,
      is_ok (parallel (s0110, s0110)).1 &
      freqresp cos_at0 sin_at0
        (PySs (mk_ss (block_mx (0%:M : 'M[algC]_1) 0 0 (0%:M : 'M[algC]_1))
                     (block_mx I1 0 0 I1) (row_mx I1 I1)
                     (row_mx (0%:M : 'M[algC]_1) (0%:M : 'M[algC]_1)) (Some 1)))
        [:: 0] true
      = Ok [:: Mat (row_mx I1 I1)]].
Proof.
have u w : w \in [:: 0] ->
    ((zpoint cos_at0 sin_at0 1 w)%:M - (0%:M : 'M[algC]_1) \in unitmx)
    && ((zpoint cos_at0 sin_at0 1 w)%:M - (0%:M : 'M[algC]_1) \in unitmx).
  by move=> hw; rewrite resolvent_at0.
have [e1 _ _ e4] := parallel_freqresp_block_row (A1 := 0%:M) I1 I1 0%:M (A2 := 0%:M)
                      I1 I1 0%:M
                      (Some 1%N) (Some 1%N) (Some 1%N) (Some 1%N) (Some 1%N) (Some 1%N) u.
split; first by rewrite resolvent_at0 ?mem_head.
  by rewrite /one_state /mk_ss e1.
by rewrite e4 /= zpoint_at0 tf_0110.
Defined.

Lemma couple_example_returns :
  is_ok (couple (Mat I1) (Mat I1) false (s0110, one_state 0 1 1 1 (Some 1))).1.
Proof.
rewrite /one_state /mk_ss couple_Mat ?dt_match1 //.
by rewrite !raddf0 ?(mulmx0, mul0mx, oppr0, add0r, addr0) ?unitmx1.
Qed.

Lemma couple_wrong_gain_shape (out_sparse : bool) :
  (couple (Mat (0 : 'M[algC]_(2, 1))) (Mat I1) out_sparse (s0110, s0110)).1
  = Err (AssertionError
           "Gain K12 shape not matching with systems number of inputs/outputs").
Proof. by rewrite /couple /sbind /on1 /on2 /= dt_match1. Qed.

(** C8 at two one-state models that [couple] does connect, and at a gain
    [K12] of the wrong shape, where both calls raise the same error. *)
Lemma couple_out_sparse_raises_witness :
  [/\ is_ok (couple (Mat I1) (Mat I1) false (s0110, one_state 0 1 1 1 (Some 1))).1,
      raises_not_supported
        (couple (Mat I1) (Mat I1) true (s0110, one_state 0 1 1 1 (Some 1))).1,
      raises_not_supported
        (couple (Mat (0 : 'M[algC]_(2, 1))) (Mat I1) true (s0110, s0110)).1 = false &
      (couple (Mat (0 : 'M[algC]_(2, 1))) (Mat I1) true (s0110, s0110)).1
      = (couple (Mat (0 : 'M[algC]_(2, 1))) (Mat I1) false (s0110, s0110)).1].
Proof.
have ok := couple_example_returns.
have [_ sup _ _ _] := couple_out_sparse_raises (Mat I1) (Mat I1)
                        (s0110, one_state 0 1 1 1 (Some 1)).
have [_ _ same _ _] := couple_out_sparse_raises (Mat (0 : 'M[algC]_(2, 1))) (Mat I1)
                         (s0110, s0110).
have nosup : raises_not_supported
    (couple (Mat (0 : 'M[algC]_(2, 1))) (Mat I1) true (s0110, s0110)).1 = false.
  by rewrite couple_wrong_gain_shape.
split; [exact: ok | exact: sup | exact: nosup | exact: same].
Defined.

(** [truncate] at a model with two states and a two-axis [B], truncated to
    one. *)
Lemma truncate_keeps_leading_states_witness :
  [/\ (1 <= 2)%N, (0 < 1)%N &
      (ss_truncate 1 (mk_ss (1%:M : 'M[algC]_2) (0 : 'M[algC]_(2, 1))
                            (0 : 'M[algC]_(1, 2)) (0 : 'M[algC]_1) (Some 1))).1
      = Ok tt].
Proof.
have [_ H] := @truncate_keeps_leading_states algC.
have e := H 2%N 1%N 1%N (1%:M : 'M[algC]_2) 0 0 0 (Some 1) (Some 1%N) (Some 1%N)
            (Some 2%N) 1%N (isT : (1 <= 2)%N) isT.
by split; [ | | rewrite /mk_ss e].
Defined.

(** C9 at the model with two states [ss(eye(2), zeros(2), zeros((1, 2)),
    zeros((1, 1)), dt=1)], whose [B] has a single axis, truncated to one
    state. *)
Lemma truncate_one_axis_B_raises_witness :
  [/\ (1 <= 2)%N, (0 < 1)%N,
      is_ok (ss_new (Mat (1%:M : 'M[algC]_2)) (Vec (0 : 'rV[algC]_2))
               (Mat (0 : 'M[algC]_(1, 2))) (Mat (0 : 'M[algC]_1)) (Some 1)) &
      (ss_truncate 1 (Ss (Mat (1%:M : 'M[algC]_2)) (Vec (0 : 'rV[algC]_2))
                         (Mat (0 : 'M[algC]_(1, 2))) (Mat (0 : 'M[algC]_1)) (Some 1)
                         (Some 1%N) (Some 1%N) (Some 2%N))).1
      = Err IndexError].
Proof.
have [e1 e2] := @truncate_one_axis_B_raises algC 2 1 2 1%:M 0 0 0 (Some 1) 1
                  (isT : (1 <= 2)%N) isT.
by split; [ | | rewrite e1 | rewrite e2].
Defined.

(** C10 at a one-state model with [A = 0]. *)
Lemma ss_disc2cont_discards_conversion_witness :
  ((0%:M : 'M[algC]_1) + 1%:M \in unitmx) /\ (ss_disc2cont s0110).1 = Ok tt.
Proof.
have u : (0%:M : 'M[algC]_1) + 1%:M \in unitmx by rewrite raddf0 add0r unitmx1.
split=> //; have [_ H _] := @ss_disc2cont_discards_conversion algC.
by rewrite /one_state /mk_ss H.
Defined.

(** C7 at two samples. *)
Lemma Hnorm_from_freq_resp_value_witness :
  ([:: (1 : algC); 1] != [::])
  /\ exists v, Hnorm_from_freq_resp [:: (1 : algC); 1] "Hinf" = Ok v.
Proof.
split=> //; have [_ H _] := Hnorm_from_freq_resp_value [:: (1 : algC); 1].
by have [v [ev _ _]] := H isT; exists v.
Defined.

(** C5 as it is stated fails.  For two copies of the one-state model
    [(0, 1, 1, 0)] with sampling interval 1, [parallel] returns a scipy
    system, which [freqresp] refuses; at the frequency 0 each model has the
    response [1], their sum is the 1 x 1 matrix [2], and the response of the
    matrices that [parallel] returns is the 1 x 2 matrix [[1, 1]]. *)
Lemma parallel_response_counterexample :
  let P := StateSpace (Mat (block_mx (0%:M : 'M[algC]_1) 0 0 (0%:M : 'M[algC]_1)))
                      (Mat (block_mx I1 0 0 I1)) (Mat (row_mx I1 I1))
                      (Mat (row_mx (0%:M : 'M[algC]_1) (0%:M : 'M[algC]_1)))
                      (Some 1) in
  [/\ (parallel (s0110, s0110)).1 = Ok (PyDlti P),
      freqresp cos_at0 sin_at0 (PyDlti P) [:: 0] true
      = Err (AssertionError
               "Type of state-space model not supported. Use libss.ss instead!"),
      freqresp cos_at0 sin_at0 (PySs s0110) [:: 0] true = Ok [:: Mat I1],
      np_add (Mat I1) (Mat I1) = Ok (Mat (I1 + I1)) &
      freqresp cos_at0 sin_at0
        (PySs (Ss (lti_A P) (lti_B P) (lti_C P) (lti_D P) (lti_dt P)
                  (Some 2%N) (Some 1%N) (Some 2%N)))
        [:: 0] true
      = Ok [:: Mat (row_mx I1 I1)]].
Proof.
move=> P; split=> //.
- by rewrite /one_state /mk_ss parallel_Mat.
- rewrite /one_state /mk_ss freqresp_Mat => [w hw |]; first exact: resolvent_at0.
  by rewrite /= zpoint_at0 tf_0110.
- by rewrite np_add_Mat.
rewrite /P /= freqresp_Mat => [w hw |].
  by apply: parallel_resolvent; rewrite resolvent_at0.
by rewrite /= zpoint_at0 parallel_tf ?resolvent_1 // tf_0110.
Qed.

(** C7 as it is stated fails.  For the two samples [1, 1] the function
    returns 1, the square root of the integral 1 divided by the single interval;
    divided by the sample count 2 the integral gives the square root of 1/2. *)
Lemma Hnorm_H2_counterexample :
  Hnorm_from_freq_resp [:: (1 : algC); 1] "H2" = Ok 1
  /\ (H2_by_sample_count [:: (1 : algC); 1] == 1) = false.
Proof.
have tz : np_trapz [seq g * g^* | g <- [:: (1 : algC); 1]] = 1.
  by rewrite /= !conjC1 !mulr1 addr0 -mulr2n divff // pnatr_eq0.
split.
  by rewrite Hnorm_H2 tz /= mulr2n addrK divr1 sqrtC1.
rewrite /H2_by_sample_count tz /= div1r.
rewrite np_sqrt_ge0 ?invr_ge0 ?ler0n //.
apply/negP => /eqP e; have := sqrtCK (2%:R^-1 : algC); rewrite e expr1n => /esym /eqP.
by rewrite invr_eq1 pnatr_eq1.
Qed.

(** C8 as it is stated fails.  With a gain [K12] of the wrong shape the
    error is the failed assertion on the shape, not the one that reports the
    unsupported sparse output. *)
Lemma couple_out_sparse_counterexample :
  (couple (Mat (0 : 'M[algC]_(2, 1))) (Mat I1) true (s0110, s0110)).1
  = Err (AssertionError
           "Gain K12 shape not matching with systems number of inputs/outputs")
  /\ raises_not_supported
       (couple (Mat (0 : 'M[algC]_(2, 1))) (Mat I1) true (s0110, s0110)).1 = false.
Proof. by rewrite couple_wrong_gain_shape. Qed.

(** C10 as it is stated fails.  For the one-state model with [A = -1] and
    sampling interval 1, [A + I] is singular and the method raises instead of
    returning [None]. *)
Lemma ss_disc2cont_counterexample :
  (ss_disc2cont (one_state (-1) 1 1 0 (Some 1))).1 = Err LinAlgError.
Proof.
rewrite /ss_disc2cont /sbind /= oner_neq0 disc2cont_Mat.
by rewrite -raddfD /= addNr raddf0 unitmxE det0 unitr0.
Qed.

End Examples.
(** ** The transfer function and the other functions of the module *)

Section InverseFacts.

Variable F : numClosedFieldType.

Lemma scalg_inv_Mat n (M : 'M[F]_n) :
  scalg_inv (Mat M) = if M \in unitmx then Ok (Mat (invmx M)) else Err LinAlgError.
Proof. by rewrite /scalg_inv eqxx np_inv_Mat. Qed.

End InverseFacts.

Opaque scalg_inv.

Section TransferFacts.

Variable F : numClosedFieldType.
Variables np_cos np_sin : F -> F.

Implicit Types (n m p : nat).

Lemma tfe_Mat n m p (Am : 'M[F]_n) (Bm : 'M[F]_(n, m)) (Cm : 'M[F]_(p, n))
    (Dm : 'M[F]_(p, m)) (h : option F) (ci co cs : option nat) (s : F) :
  ss_transfer_function_evaluation s (Ss (Mat Am) (Mat Bm) (Mat Cm) (Mat Dm) h ci co cs)
  = (if s%:M - Am \in unitmx then Ok (Mat (tf Am Bm Cm Dm s)) else Err LinAlgError,
     Ss (Mat Am) (Mat Bm) (Mat Cm) (Mat Dm) h ci co cs).
Proof.
rewrite /ss_transfer_function_evaluation /sbind /lift /= np_eyeE np_scale_Mat scalemx1.
rewrite np_sub_Mat /= scalg_inv_Mat; case: ifP => //= _.
by rewrite !np_dot_Mat /= np_dot_Mat /= np_add_Mat /tf mulmxA.
Qed.

Lemma freqresp_cont_Mat n m p (Am : 'M[F]_n) (Bm : 'M[F]_(n, m)) (Cm : 'M[F]_(p, n))
    (Dm : 'M[F]_(p, m)) (h : option F) (ci co cs : option nat) (wv : seq F) :
  (forall w, w \in wv -> ('i * w)%:M - Am \in unitmx) ->
  freqresp np_cos np_sin (PySs (Ss (Mat Am) (Mat Bm) (Mat Cm) (Mat Dm) h ci co cs)) wv false
  = Ok [seq Mat (tf Am Bm Cm Dm ('i * w)) | w <- wv].
Proof.
rewrite /freqresp /= libsp_eye_as_Mat /=.
elim: wv => [|w wv IH] //= uA.
rewrite np_scale_Mat scalemx1 np_sub_Mat /= libsp_solve_Mat uA ?mem_head //=.
rewrite libsp_dot_Mat /= np_add_Mat /= broadcast_to_Mat /=.
by rewrite IH // => w' w'wv; apply: uA; rewrite in_cons w'wv orbT.
Qed.

End TransferFacts.

Section EvaluationFacts.

Variable F : numClosedFieldType.
Variables np_cos np_sin : F -> F.

Implicit Types (n m p : nat).

Lemma map_result_map (T U V : Type) (g : T -> U) (k : U -> result V) (xs : seq T) :
  map_result k [seq g x | x <- xs] = map_result (fun x => k (g x)) xs.
Proof. by elim: xs => [|x xs IH] //=; rewrite IH. Qed.

Lemma eq_map_result (T U : Type) (f g : T -> result U) (xs : seq T) :
  (forall x, f x = g x) -> map_result f xs = map_result g xs.
Proof. by move=> efg; elim: xs => [|x xs IH] //=; rewrite efg IH. Qed.



End EvaluationFacts.

Section ConstructorFacts.

Variable F : numClosedFieldType.


End ConstructorFacts.

(** ** Gains and projections *)

Section GainFacts.

Variable F : numClosedFieldType.

Variables (n m p : nat).
Variables (Am : 'M[F]_n) (Bm : 'M[F]_(n, m)) (Cm : 'M[F]_(p, n)) (Dm : 'M[F]_(p, m)).
Variables (h : option F) (ci co cs : option nat).

Let self := Ss (Mat Am) (Mat Bm) (Mat Cm) (Mat Dm) h ci co cs.

Local Notation tfe := (@ss_transfer_function_evaluation F).

Lemma tf_gain_in q (K : 'M[F]_(m, q)) z :
  tf Am (Bm *m K) Cm (Dm *m K) z = tf Am Bm Cm Dm z *m K.
Proof. by rewrite /tf mulmxDl !mulmxA. Qed.

Lemma tf_gain_out q (K : 'M[F]_(q, p)) z :
  tf Am Bm (K *m Cm) (K *m Dm) z = K *m tf Am Bm Cm Dm z.
Proof. by rewrite /tf mulmxDr !mulmxA. Qed.

Lemma tf_gain_down q (K : 'M[F]_(p, q)) z :
  tf Am (row_mx Bm (0 : 'M_(n, q))) Cm (row_mx Dm K) z = row_mx (tf Am Bm Cm Dm z) K.
Proof. by rewrite /tf !mul_mx_row !mulmx0 add_row_mx add0r. Qed.

Lemma tf_gain_up q (K : 'M[F]_(p, q)) z :
  tf Am (row_mx (0 : 'M_(n, q)) Bm) Cm (row_mx K Dm) z = row_mx K (tf Am Bm Cm Dm z).
Proof. by rewrite /tf !mul_mx_row !mulmx0 add_row_mx add0r. Qed.

Lemma ss_addGain_in q (K : 'M[F]_(m, q)) :
  ss_addGain (Mat K) "in" self
  = (Ok tt, Ss (Mat Am) (Mat (Bm *m K)) (Mat Cm) (Mat (Dm *m K)) h ci co cs).
Proof. by rewrite /ss_addGain /sbind /lift /= !libsp_dot_Mat. Qed.

Lemma ss_addGain_out q (K : 'M[F]_(q, p)) :
  ss_addGain (Mat K) "out" self
  = (Ok tt, Ss (Mat Am) (Mat Bm) (Mat (K *m Cm)) (Mat (K *m Dm)) h ci co cs).
Proof. by rewrite /ss_addGain /sbind /lift /= !libsp_dot_Mat. Qed.


Lemma addGain_in q (K : 'M[F]_(m, q)) :
  addGain self (Mat K) "in" = Ok (mk_ss Am (Bm *m K) Cm (Dm *m K) h).
Proof.
rewrite /addGain /= !np_dot_Mat /=.
by case: (h) => [x|] /=; rewrite ss_new_Mat.
Qed.

Lemma addGain_out q (K : 'M[F]_(q, p)) :
  addGain self (Mat K) "out" = Ok (mk_ss Am Bm (K *m Cm) (K *m Dm) h).
Proof.
rewrite /addGain /= !np_dot_Mat /=.
by case: (h) => [x|] /=; rewrite ss_new_Mat.
Qed.

Lemma addGain_down q (K : 'M[F]_(p, q)) :
  addGain self (Mat K) "parallel-down"
  = Ok (mk_ss Am (row_mx Bm (0 : 'M_(n, q))) Cm (row_mx Dm K) h).
Proof.
rewrite /addGain /= np_zerosE !block_row_Mat /=.
by case: (h) => [x|] /=; rewrite ss_new_Mat.
Qed.

Lemma addGain_up q (K : 'M[F]_(p, q)) :
  addGain self (Mat K) "parallel-up"
  = Ok (mk_ss Am (row_mx (0 : 'M_(n, q)) Bm) Cm (row_mx K Dm) h).
Proof.
rewrite /addGain /= np_zerosE !block_row_Mat /=.
by case: (h) => [x|] /=; rewrite ss_new_Mat.
Qed.


End GainFacts.

Section ProjectFacts.

Variable F : numClosedFieldType.

Variables (n m p : nat).
Variables (Am : 'M[F]_n) (Bm : 'M[F]_(n, m)) (Cm : 'M[F]_(p, n)) (Dm : 'M[F]_(p, m)).
Variables (h : option F) (ci co cs : option nat).

Let self := Ss (Mat Am) (Mat Bm) (Mat Cm) (Mat Dm) h ci co cs.

Local Notation tfe := (@ss_transfer_function_evaluation F).

Lemma invmx_mulmx k (X Y : 'M[F]_k) :
  X \in unitmx -> Y \in unitmx -> invmx (X *m Y) = invmx Y *m invmx X.
Proof.
move=> uX uY; have uXY : X *m Y \in unitmx by rewrite unitmx_mul uX uY.
by rewrite -[RHS](mulKmx uXY) -!mulmxA (mulKVmx uY) mulmxV // mulmx1.
Qed.

Lemma project_Mat k (WT : 'M[F]_(k, n)) (V : 'M[F]_(n, k)) :
  project self (Mat WT) (Mat V)
  = Ok (mk_ss (WT *m (Am *m V)) (WT *m Bm) (Cm *m V) Dm h).
Proof. by rewrite /project /=; do 4![rewrite ?libsp_dot_Mat /=]; rewrite ss_new_Mat. Qed.

Lemma ss_project_Mat k (WT : 'M[F]_(k, n)) (V : 'M[F]_(n, k)) :
  ss_project (Mat WT) (Mat V) self
  = (Ok tt, Ss (Mat (WT *m (Am *m V))) (Mat (WT *m Bm)) (Mat (Cm *m V)) (Mat Dm) h
               ci co (Some k)).
Proof. by rewrite /ss_project /sbind /lift /=; do 4![rewrite ?libsp_dot_Mat /=]. Qed.

Lemma similar_resolvent (V : 'M[F]_n) (z : F) :
  V \in unitmx ->
  z%:M - invmx V *m (Am *m V) = invmx V *m (z%:M - Am) *m V.
Proof.
move=> uV; rewrite mulmxBr mulmxBl -!mulmxA; congr (_ - _).
by rewrite -scalar_mxC mulmxA mulVmx // mul1mx.
Qed.

Lemma tf_similar (V : 'M[F]_n) (z : F) :
  V \in unitmx -> z%:M - Am \in unitmx ->
  tf (invmx V *m (Am *m V)) (invmx V *m Bm) (Cm *m V) Dm z = tf Am Bm Cm Dm z.
Proof.
move=> uV uR; rewrite /tf similar_resolvent //.
have uVi : invmx V \in unitmx by rewrite unitmx_inv.
rewrite invmx_mulmx ?unitmx_mul ?uVi // invmx_mulmx // invmxK.
by rewrite !mulmxA !(mulmxK uV) -!mulmxA.
Qed.


End ProjectFacts.

(** ** The further statements at concrete models *)

Section MoreExamples.

Local Notation m0110 := (one_state 0 1 1 0 (Some 1)).
Local Notation E1 := (1%:M : 'M[algC]_1).




End MoreExamples.
